(** * Annotations of raw recordings: [mne/annotations.py]

    A shallow embedding of the [Annotations] class and of
    [_combine_annotations], and the properties of both.

    Python floats are IEEE binary64 numbers: they are Rocq's primitive
    floats, with the same rounding.  Python integers are unbounded: [Z].
    Exceptions are values of [exception], carried by [result].  What the
    file calls of numpy ([np.array], [ndarray.ndim], [len], indexing with an
    index array, [np.r_], [argsort]) is modelled on arrays that record their
    dimensionality.  [json.dumps] is modelled down to the text, and
    [json.loads] with it.  Three things are parameters: [argsort], with the
    contract its documentation gives, [time.mktime], and the text of a
    float ([float.__repr__] and [float]).  What the contract of [argsort]
    leaves open, the order of equal cells, is settled by numpy's
    quicksort, the default [kind], which is modelled too. *)

From Stdlib Require Import String Ascii.
From Stdlib Require Import List ZArith Bool Lia Permutation Sorted.
From Stdlib Require Import Floats.
Import ListNotations.

Set Warnings "-inexact-float,-register-all,-notation-for-abbreviation".
Local Open Scope string_scope.
Local Open Scope list_scope.

(** ** Exceptions *)

Inductive exception : Type :=
| ValueError (msg : string)
| TypeError
| IndexError
| ZeroDivisionError
| OverflowError.

Inductive result (A : Type) : Type :=
| Ok (a : A)
| Raise (e : exception).

Arguments Ok {A} a.
Arguments Raise {A} e.

Definition bind {A B : Type} (m : result A) (k : A -> result B) : result B :=
  match m with
  | Ok a => k a
  | Raise e => Raise e
  end.

Notation "x <- m ;; k" := (bind m (fun x => k))
  (at level 61, m at next level, right associativity).

Definition is_ValueError (e : exception) : bool :=
  match e with
  | ValueError _ => true
  | _ => false
  end.

(** ** Numbers *)

(** A Python number as the file meets them: an [int] or a [float]. *)
Inductive number : Type :=
| PyInt (n : Z)
| PyFloat (x : float).

(** [float(n)] of an integer: rounded to the nearest binary64 number, ties to
    even; an integer beyond the range raises OverflowError. *)
Definition int_to_float (n : Z) : result float :=
  let x := SF2Prim (binary_normalize prec emax n 0 false) in
  if is_infinity x then Raise OverflowError else Ok x.

(** [float(x)]. *)
Definition to_float (x : number) : result float :=
  match x with
  | PyInt n => int_to_float n
  | PyFloat f => Ok f
  end.

(** [x / y] with [y] a float: [x] is converted first, then a zero divisor
    raises ZeroDivisionError. *)
Definition truediv (x : number) (y : float) : result float :=
  fx <- to_float x ;;
  if (y =? 0)%float then Raise ZeroDivisionError else Ok (fx / y)%float.

(** [x + y] with [y] a float. *)
Definition add_float (x : number) (y : float) : result float :=
  fx <- to_float x ;;
  Ok (fx + y)%float.

(** The builtin [sum] over integers. *)
Definition sum (l : list Z) : Z := fold_left Z.add l 0%Z.

(** ** Arrays

    A numpy array by its number of dimensions.  [ArrayN d ds rows] has shape
    [(length rows, d, ds...)]; each row holds the cells of one sub-array. *)

Inductive ndarray (A : Type) : Type :=
| Array0 (x : A)
| Array1 (cells : list A)
| ArrayN (d : nat) (ds : list nat) (rows : list (list A)).

Arguments Array0 {A} x.
Arguments Array1 {A} cells.
Arguments ArrayN {A} d ds rows.

Definition ndim {A : Type} (a : ndarray A) : nat :=
  match a with
  | Array0 _ => 0
  | Array1 _ => 1
  | ArrayN _ ds _ => 2 + length ds
  end.

(** [len(a)]: the first dimension; a zero-dimensional array has none. *)
Definition len {A : Type} (a : ndarray A) : result nat :=
  match a with
  | Array0 _ => Raise TypeError
  | Array1 cells => Ok (length cells)
  | ArrayN _ _ rows => Ok (length rows)
  end.

(** [l[idx]] on a one-dimensional buffer, [idx] an index array. *)
Fixpoint take {A : Type} (l : list A) (idx : list nat) : result (list A) :=
  match idx with
  | [] => Ok []
  | i :: idx' =>
      match nth_error l i with
      | None => Raise IndexError
      | Some x => xs <- take l idx' ;; Ok (x :: xs)
      end
  end.

(** [a[idx]]: indexing along the first axis. *)
Definition take0 {A : Type} (a : ndarray A) (idx : list nat)
  : result (ndarray A) :=
  match a with
  | Array0 _ => Raise IndexError
  | Array1 cells => cells' <- take cells idx ;; Ok (Array1 cells')
  | ArrayN d ds rows => rows' <- take rows idx ;; Ok (ArrayN d ds rows')
  end.

(** [np.r_[a, b]]: concatenation along the first axis.  A zero-dimensional
    item counts as one cell; the other dimensions must agree. *)
Definition np_r_ {A : Type} (a b : ndarray A) : result (ndarray A) :=
  let up (x : ndarray A) :=
    match x with
    | Array0 c => Array1 [c]
    | _ => x
    end in
  match up a, up b with
  | Array1 ca, Array1 cb => Ok (Array1 (ca ++ cb))
  | ArrayN d ds ra, ArrayN d' ds' rb =>
      if list_eq_dec Nat.eq_dec (d :: ds) (d' :: ds')
      then Ok (ArrayN d ds (ra ++ rb))
      else Raise (ValueError "all the input array dimensions except for the concatenation axis must match exactly")
  | _, _ => Raise (ValueError "all the input arrays must have same number of dimensions")
  end.

(** ** JSON text

    The documents of the [json] module, and [json.dumps] and [json.loads]
    with their default settings: items separated by a comma and a space,
    keys from values by a colon and a space, strings escaped down to ASCII.
    How a float is written and read is left to [float.__repr__] and
    [float], taken as parameters. *)

Inductive json : Type :=
| JNull
| JNumber (x : float)
| JString (s : string)
| JArray (items : list json)
| JObject (members : list (string * json)).

Definition quote : ascii := "034"%char.
Definition backslash : ascii := "092"%char.

Definition hex_digit (n : nat) : ascii :=
  nth n ["0"; "1"; "2"; "3"; "4"; "5"; "6"; "7"; "8"; "9";
         "a"; "b"; "c"; "d"; "e"; "f"]%char "0"%char.

(** One character of a string as [json.dumps] writes it with
    [ensure_ascii]: the quote and the backslash behind a backslash, the
    five short escapes, the printable ASCII characters as they are, any
    other one as [\u00XX]. *)
Definition escape (c : ascii) : string :=
  let n := nat_of_ascii c in
  let esc (e : ascii) := String backslash (String e EmptyString) in
  if Ascii.eqb c quote then esc quote
  else if Ascii.eqb c backslash then esc backslash
  else if Nat.eqb n 8 then esc "b"%char
  else if Nat.eqb n 9 then esc "t"%char
  else if Nat.eqb n 10 then esc "n"%char
  else if Nat.eqb n 12 then esc "f"%char
  else if Nat.eqb n 13 then esc "r"%char
  else if (Nat.leb 32 n && Nat.leb n 126)%bool then String c EmptyString
  else String backslash
         (String "u" (String "0" (String "0"
           (String (hex_digit (n / 16)) (String (hex_digit (n mod 16))
             EmptyString))))).

Fixpoint escape_string (s : string) : string :=
  match s with
  | EmptyString => EmptyString
  | String c s' => (escape c ++ escape_string s')%string
  end.

Definition quoted (s : string) : string :=
  String quote (escape_string s ++ String quote EmptyString)%string.

Fixpoint join (sep : string) (l : list string) : string :=
  match l with
  | [] => EmptyString
  | x :: l' =>
      match l' with
      | [] => x
      | _ => (x ++ sep ++ join sep l')%string
      end
  end.

Section Dumps.

(** How [json.dumps] writes a float: [float.__repr__], and [NaN],
    [Infinity], [-Infinity] for what is no number. *)
Variable float_repr : float -> string.

Fixpoint dumps (v : json) : string :=
  match v with
  | JNull => "null"
  | JNumber x => float_repr x
  | JString s => quoted s
  | JArray items => ("[" ++ join ", " (map dumps items) ++ "]")%string
  | JObject members =>
      ("{" ++ join ", " (map (fun kv => quoted (fst kv) ++ ": " ++ dumps (snd kv)) members)
           ++ "}")%string
  end.
End Dumps.

Definition hex_value (c : ascii) : option nat :=
  let n := nat_of_ascii c in
  if (Nat.leb 48 n && Nat.leb n 57)%bool then Some (n - 48)
  else if (Nat.leb 97 n && Nat.leb n 102)%bool then Some (n - 87)
  else if (Nat.leb 65 n && Nat.leb n 70)%bool then Some (n - 55)
  else None.

Definition unescape (e : ascii) : option ascii :=
  if Ascii.eqb e quote then Some quote
  else if Ascii.eqb e backslash then Some backslash
  else if Ascii.eqb e "/" then Some "/"%char
  else if Ascii.eqb e "b" then Some "008"%char
  else if Ascii.eqb e "t" then Some "009"%char
  else if Ascii.eqb e "n" then Some "010"%char
  else if Ascii.eqb e "f" then Some "012"%char
  else if Ascii.eqb e "r" then Some "013"%char
  else None.

(** The characters of a string up to its closing quote. *)
Fixpoint parse_chars (s : string) : option (string * string) :=
  match s with
  | EmptyString => None
  | String c rest =>
      if Ascii.eqb c quote then Some (EmptyString, rest)
      else if Ascii.eqb c backslash then
        match rest with
        | EmptyString => None
        | String e rest1 =>
            if Ascii.eqb e "u" then
              match rest1 with
              | String h1 (String h2 (String h3 (String h4 rest2))) =>
                  match hex_value h1, hex_value h2, hex_value h3, hex_value h4 with
                  | Some 0, Some 0, Some a, Some b =>
                      match parse_chars rest2 with
                      | Some (t, r) => Some (String (ascii_of_nat (16 * a + b)) t, r)
                      | None => None
                      end
                  | _, _, _, _ => None
                  end
              | _ => None
              end
            else
              match unescape e with
              | Some c' =>
                  match parse_chars rest1 with
                  | Some (t, r) => Some (String c' t, r)
                  | None => None
                  end
              | None => None
              end
        end
      else if Nat.leb 32 (nat_of_ascii c) then
        match parse_chars rest with
        | Some (t, r) => Some (String c t, r)
        | None => None
        end
      else None
  end.


(** The characters a number is written with, [NaN], [Infinity] and
    [-Infinity] included. *)
Definition number_char (c : ascii) : bool :=
  let n := nat_of_ascii c in
  ((Nat.leb 48 n && Nat.leb n 57) ||
   existsb (Ascii.eqb c) ["+"; "-"; "."; "e"; "E"; "N"; "a"; "I"; "n"; "f"; "i"; "t"; "y"]%char)%bool.

(** The first character of a number. *)
Definition number_start (c : ascii) : bool :=
  let n := nat_of_ascii c in
  ((Nat.leb 48 n && Nat.leb n 57) ||
   existsb (Ascii.eqb c) ["-"; "N"; "I"]%char)%bool.

Fixpoint all_number_chars (s : string) : bool :=
  match s with
  | EmptyString => true
  | String c s' => (number_char c && all_number_chars s')%bool
  end.

(** A text that stands for a number. *)
Definition number_text (s : string) : bool :=
  match s with
  | EmptyString => false
  | String c _ => (number_start c && all_number_chars s)%bool
  end.

(** The longest prefix of number characters, and what follows. *)
Fixpoint span_number (s : string) : string * string :=
  match s with
  | EmptyString => (EmptyString, EmptyString)
  | String c s' =>
      if number_char c then
        let (tok, rest) := span_number s' in (String c tok, rest)
      else (EmptyString, s)
  end.

Fixpoint skip_spaces (s : string) : string :=
  match s with
  | String c s' => if Ascii.eqb c " " then skip_spaces s' else s
  | EmptyString => s
  end.

(** [s] without the prefix [p]. *)
Fixpoint expect (p s : string) : option string :=
  match p with
  | EmptyString => Some s
  | String c p' =>
      match s with
      | String c' s' => if Ascii.eqb c' c then expect p' s' else None
      | EmptyString => None
      end
  end.

Section Loads.

(** How [json.loads] reads the text of a number: [float]. *)
Variable float_parse : string -> option float.

Fixpoint parse (fuel : nat) (s : string) : option (json * string) :=
  match fuel with
  | O => None
  | S fuel' =>
      match s with
      | EmptyString => None
      | String c rest =>
          if Ascii.eqb c "n" then
            match expect "ull" rest with
            | Some rest' => Some (JNull, rest')
            | None => None
            end
          else if Ascii.eqb c quote then
            match parse_chars rest with
            | Some (t, rest') => Some (JString t, rest')
            | None => None
            end
          else if Ascii.eqb c "[" then
            match expect "]" rest with
            | Some rest' => Some (JArray [], rest')
            | None =>
                match parse_items fuel' rest with
                | Some (items, rest') => Some (JArray items, rest')
                | None => None
                end
            end
          else if Ascii.eqb c "{" then
            match expect "}" rest with
            | Some rest' => Some (JObject [], rest')
            | None =>
                match parse_members fuel' rest with
                | Some (members, rest') => Some (JObject members, rest')
                | None => None
                end
            end
          else
            let (tok, rest') := span_number s in
            match float_parse tok with
            | Some x => Some (JNumber x, rest')
            | None => None
            end
      end
  end
with parse_items (fuel : nat) (s : string) : option (list json * string) :=
  match fuel with
  | O => None
  | S fuel' =>
      match parse fuel' s with
      | Some (v, String c rest) =>
          if Ascii.eqb c "," then
            match parse_items fuel' (skip_spaces rest) with
            | Some (vs, rest') => Some (v :: vs, rest')
            | None => None
            end
          else if Ascii.eqb c "]" then Some ([v], rest)
          else None
      | _ => None
      end
  end
with parse_members (fuel : nat) (s : string)
  : option (list (string * json) * string) :=
  match fuel with
  | O => None
  | S fuel' =>
      match s with
      | String q s1 =>
          if Ascii.eqb q quote then
            match parse_chars s1 with
            | Some (k, String colon s2) =>
                if Ascii.eqb colon ":" then
                  match parse fuel' (skip_spaces s2) with
                  | Some (v, String c rest) =>
                      if Ascii.eqb c "," then
                        match parse_members fuel' (skip_spaces rest) with
                        | Some (ms, rest') => Some ((k, v) :: ms, rest')
                        | None => None
                        end
                      else if Ascii.eqb c "}" then Some ([(k, v)], rest)
                      else None
                  | _ => None
                  end
                else None
            | _ => None
            end
          else None
      | EmptyString => None
      end
  end.

(** [json.loads]: one value, and nothing behind it. *)
Definition loads (s : string) : option json :=
  match parse (S (String.length s)) s with
  | Some (v, EmptyString) => Some v
  | _ => None
  end.

End Loads.

(** ** The class *)

Record Annotations_ (V : Type) : Type := mkAnnotations {
  onset : list V;
  duration : list float;
  description : ndarray string;
  orig_time : option float
}.

Arguments mkAnnotations {V} onset duration description orig_time.
Arguments onset {V} a.
Arguments duration {V} a.
Arguments description {V} a.
Arguments orig_time {V} a.

(** A cell of an onset array: a float, or any other Python object; the one
    other object [_combine_annotations] can put there is an instance of the
    class itself. *)
Inductive value : Type :=
| VFloat (x : float)
| VObject (o : Annotations_ value).

Definition Annotations : Type := Annotations_ value.

(** [x < y] on cells.  The class defines no ordering: comparing an instance
    raises TypeError. *)
Definition value_lt (x y : value) : result bool :=
  match x, y with
  | VFloat a, VFloat b => Ok (a <? b)%float
  | _, _ => Raise TypeError
  end.

(** [x + s] on a cell; the class defines no addition. *)
Definition value_add (s : float) (x : value) : result value :=
  match x with
  | VFloat a => Ok (VFloat (a + s)%float)
  | VObject _ => Raise TypeError
  end.

Fixpoint mapM {A B : Type} (f : A -> result B) (l : list A) : result (list B) :=
  match l with
  | [] => Ok []
  | x :: l' => y <- f x ;; ys <- mapM f l' ;; Ok (y :: ys)
  end.

(** The cells as floats when the array holds only floats. *)
Fixpoint as_floats (l : list value) : option (list float) :=
  match l with
  | [] => Some []
  | VFloat x :: l' => option_map (cons x) (as_floats l')
  | VObject _ :: _ => None
  end.

(** What the name [onset] is bound to in [_combine_annotations] before
    [np.r_]: an array of cells, or an instance of the class. *)
Inductive r_item : Type :=
| ItemArray (cells : list value)
| ItemObject (o : Annotations).

(** [np.r_[a, x]] with [a] one-dimensional: an array is appended as it is, any
    other object becomes the one cell of an object array
    ([np.array(x, ndmin=1)]). *)
Definition np_r_cells (a : list value) (x : r_item) : list value :=
  match x with
  | ItemArray cells => a ++ cells
  | ItemObject o => a ++ [VObject o]
  end.

(** numpy's order on floats when it sorts: NaN after every number. *)
Definition np_lt (x y : float) : bool :=
  ((x <? y)%float || (is_nan y && negb (is_nan x)))%bool.

Definition ascending (l : list float) : Prop :=
  forall i j, i < j < length l ->
    np_lt (nth j l nan) (nth i l nan) = false.

(** What [a.argsort()] returns: the indices of [a], each once, in an order
    that sorts [a]. *)
Definition is_argsort (a : list float) (order : list nat) : Prop :=
  Permutation order (seq 0 (length a)) /\
  ascending (map (fun i => nth i a nan) order).

(** An argsort that keeps equal cells in their order. *)
Definition is_stable (a : list float) (order : list nat) : Prop :=
  forall p q, p < q < length order ->
    (nth (nth p order 0%nat) a nan =? nth (nth q order 0%nat) a nan)%float = true ->
    nth p order 0 < nth q order 0.

(** The forms of the [orig_time] argument. *)
Inductive orig_time_arg (datetime : Type) : Type :=
| OTNone
| OTDatetime (dt : datetime)
| OTSequence (items : list number)
| OTScalar (x : number).

Arguments OTNone {datetime}.
Arguments OTDatetime {datetime} dt.
Arguments OTSequence {datetime} items.
Arguments OTScalar {datetime} x.

(** [seq[i]]. *)
Definition getitem {A : Type} (l : list A) (i : nat) : result A :=
  match nth_error l i with
  | Some x => Ok x
  | None => Raise IndexError
  end.

(** [all(iterable)] over the truth values of the items. *)
Definition all (l : list bool) : bool := forallb (fun b => b) l.

(** The truth value of [None] or an instance: the class defines neither
    [__bool__] nor [__len__], every instance is true. *)
Definition truth {A : Type} (x : option A) : bool :=
  match x with
  | None => false
  | Some _ => true
  end.

(** [l[:-1]]. *)
Definition but_last {A : Type} (l : list A) : list A := removelast l.

(** What [json.dumps] makes of a cell of [onset.tolist()]: a float is a
    number; an instance of the class is not serializable. *)
Definition cell_to_json (v : value) : result json :=
  match v with
  | VFloat x => Ok (JNumber x)
  | VObject _ => Raise TypeError
  end.

(** The cells of a sub-array of strings of the given shape as nested
    lists. *)
Fixpoint nest (shape : list nat) (cells : list string) : json :=
  match shape with
  | [] => JString (hd EmptyString cells)
  | n :: shape' =>
      let k := fold_right Nat.mul 1 shape' in
      JArray (map (fun i => nest shape' (firstn k (skipn (i * k) cells)))
                  (seq 0 n))
  end.

(** [a.tolist()] on an array of strings. *)
Definition tolist (a : ndarray string) : json :=
  match a with
  | Array0 x => JString x
  | Array1 cells => JArray (map JString cells)
  | ArrayN d ds rows => JArray (map (nest (d :: ds)) rows)
  end.

(** [sum(last_samps[:-1]) / sfreq]: the length in seconds of what precedes
    the last block. *)
Definition onset_shift (last_samps : list Z) (sfreq : float) : result float :=
  truediv (PyInt (sum (but_last last_samps))) sfreq.

Section Annotations.

(** [datetime] instances and [time.mktime(dt.timetuple())]. *)
Variable datetime : Type.
Variable mktime : datetime -> result float.

(** [ndarray.argsort] on a float64 buffer, with the default [kind], which
    numpy documents as not stable: the indices sort the array, the order of
    equal cells is not specified. *)
Variable argsort : list float -> list nat.

(** The text of a float in [json.dumps]. *)
Variable float_repr : float -> string.

(** [a.argsort(axis=0)] on cells.  An array that holds an object is sorted
    by comparing its cells with [<]; one cell or none needs no
    comparison. *)
Definition ndarray_argsort (a : list value) : result (list nat) :=
  match as_floats a with
  | Some fl => Ok (argsort fl)
  | None =>
      if Nat.leb (length a) 1 then Ok (seq 0 (length a)) else Raise TypeError
  end.

Definition normalize_orig_time (orig_time : orig_time_arg datetime)
  : result (option float) :=
  match orig_time with
  | OTNone => Ok None
  | OTDatetime dt => t <- mktime dt ;; Ok (Some t)
  | OTSequence items =>
      s <- getitem items 0 ;;
      us <- getitem items 1 ;;
      q <- truediv us 1000000%float ;;
      t <- add_float s q ;;
      Ok (Some t)
  | OTScalar x => t <- to_float x ;; Ok (Some t)
  end.

Definition __init__ (onset : ndarray value) (duration : ndarray float)
    (description : ndarray string) (orig_time : orig_time_arg datetime)
  : result Annotations :=
  orig_time <- normalize_orig_time orig_time ;;
  match onset with
  | Array1 onset =>
      match duration with
      | Array1 duration =>
          let size_error :=
            ValueError "Onset, duration and description must be equal in sizes." in
          if negb (Nat.eqb (length onset) (length duration)) then Raise size_error
          else
            n <- len description ;;
            if negb (Nat.eqb (length duration) n) then Raise size_error
            else
              order <- ndarray_argsort onset ;;
              onset' <- take onset order ;;
              duration' <- take duration order ;;
              description' <- take0 description order ;;
              Ok (mkAnnotations onset' duration' description' orig_time)
      | _ => Raise (ValueError "Duration must be a one dimensional array.")
      end
  | _ => Raise (ValueError "Onset must be a one dimensional array.")
  end.

Definition _serialize (self : Annotations) : result string :=
  onset_list <- mapM cell_to_json (onset self) ;;
  Ok (dumps float_repr
        (JObject
           [("onset", JArray onset_list);
            ("duration", JArray (map JNumber (duration self)));
            ("description", tolist (description self));
            ("orig_time",
              match orig_time self with
              | None => JNull
              | Some t => JNumber t
              end)])).

(** A stored [orig_time] passed again as the argument. *)
Definition stored_orig_time (t : option float) : orig_time_arg datetime :=
  match t with
  | None => OTNone
  | Some x => OTScalar (PyFloat x)
  end.

Definition _combine_annotations
    (annotations : option Annotations * option Annotations)
    (last_samps : list Z) (sfreq : float) : result (option Annotations) :=
  let (a0, a1) := annotations in
  if negb (all [truth a0; truth a1]) then Ok None
  else
    match a0, a1 with
    | None, _ => Ok a1
    | _, None => Ok a0
    | Some a0, Some a1 =>
        onset1 <-
          match orig_time a1 with
          | None =>
              shift <- onset_shift last_samps sfreq ;;
              shifted <- mapM (value_add shift) (onset a1) ;;
              Ok (ItemArray shifted)
          | Some _ => Ok (ItemObject a1)
          end ;;
        let onset' := np_r_cells (onset a0) onset1 in
        let duration' := duration a0 ++ duration a1 in
        description' <- np_r_ (description a0) (description a1) ;;
        merged <- __init__ (Array1 onset') (Array1 duration') description'
                           (stored_orig_time (orig_time a0)) ;;
        Ok (Some merged)
    end.

End Annotations.

(** ** Two sorts that meet the contract of [argsort]

    Insertion of the indices, last index first, for the order [before] on
    the cells.  With [before x y] as "x is not after y" an index goes in front
    of the cells equal to its own, which entered earlier and have larger
    indices: equal cells keep their order, as with [kind='stable'].  With
    [before] as numpy's strict order the index goes behind them: equal
    cells come out reversed. *)

Fixpoint insert_index (before : nat -> nat -> bool) (i : nat)
    (sorted : list nat) : list nat :=
  match sorted with
  | [] => [i]
  | j :: rest =>
      if before i j then i :: sorted
      else j :: insert_index before i rest
  end.

Definition argsort_by (before : float -> float -> bool) (a : list float)
  : list nat :=
  fold_right
    (insert_index (fun i j => before (nth i a nan) (nth j a nan)))
    [] (seq 0 (length a)).

Definition stable_argsort : list float -> list nat :=
  argsort_by (fun x y => negb (np_lt y x)).

Definition reversing_argsort : list float -> list nat :=
  argsort_by np_lt.

(** ** numpy's quicksort

    [argsort] with its default [kind] sorts an array of indices by numpy's
    quicksort, [aquicksort_] of npysort/quicksort.cpp in its scalar form: a
    part of more than 17 cells is partitioned around the median of its
    first, middle and last cell, the larger side is pushed on a stack and
    the smaller one taken on; a part of at most 17 cells is finished by
    insertion; a part reached with the depth used up is finished by
    [aheapsort_].  Cells are compared by [np_lt].  Pointers into the array
    of indices are positions in it. *)

Definition SMALL_QUICKSORT : nat := 16.

(** [npy_get_msb]: the position of the highest bit set. *)
Definition npy_get_msb (n : nat) : Z := Z.of_nat (Nat.log2 n).

(** [*p = i] on the array of indices. *)
Fixpoint store (tosort : list nat) (p i : nat) : list nat :=
  match tosort, p with
  | [], _ => []
  | _ :: rest, 0 => i :: rest
  | j :: rest, S p' => j :: store rest p' i
  end.

(** [INTP_SWAP] on the cells at [p] and [q]. *)
Definition INTP_SWAP (tosort : list nat) (p q : nat) : list nat :=
  store (store tosort p (nth q tosort 0)) q (nth p tosort 0).

Section Quicksort.

(** The buffer that is sorted: it is read, never written. *)
Variable v : list float.

(** [v[*p]]. *)
Definition cell (tosort : list nat) (p : nat) : float :=
  nth (nth p tosort 0) v nan.

(** The three tests on [*pl], [*pm] and [*pr] that leave the median at
    [pm]. *)
Definition median_of_three (tosort : list nat) (pl pm pr : nat) : list nat :=
  let t1 :=
    if np_lt (cell tosort pm) (cell tosort pl) then INTP_SWAP tosort pm pl
    else tosort in
  let t2 :=
    if np_lt (cell t1 pr) (cell t1 pm) then INTP_SWAP t1 pr pm else t1 in
  if np_lt (cell t2 pm) (cell t2 pl) then INTP_SWAP t2 pm pl else t2.

(** [while (less(v[*pi], vp)) ++pi], at most [n] cells on. *)
Fixpoint scan_up (n : nat) (tosort : list nat) (vp : float) (pi : nat) : nat :=
  match n with
  | 0 => pi
  | S n' =>
      if np_lt (cell tosort pi) vp then scan_up n' tosort vp (S pi) else pi
  end.

(** [while (less(vp, v[*pj])) --pj], at most [n] cells back. *)
Fixpoint scan_down (n : nat) (tosort : list nat) (vp : float) (pj : nat)
  : nat :=
  match n with
  | 0 => pj
  | S n' =>
      if np_lt vp (cell tosort pj) then scan_down n' tosort vp (pj - 1)
      else pj
  end.

(** The loop [for (;;)] of a partition: [pi] moves up and [pj] down, each
    at least one cell, and the two cells are exchanged until they meet.
    It ends with the array and [pi]. *)
Fixpoint exchange (n : nat) (tosort : list nat) (vp : float) (pi pj : nat)
  : list nat * nat :=
  match n with
  | 0 => (tosort, pi)
  | S n' =>
      let pi' := scan_up (length tosort) tosort vp (S pi) in
      let pj' := scan_down (length tosort) tosort vp (pj - 1) in
      if Nat.leb pj' pi' then (tosort, pi')
      else exchange n' (INTP_SWAP tosort pi' pj') vp pi' pj'
  end.

(** One partition of [pl .. pr]: the array, and where the pivot is. *)
Definition quicksort_partition (tosort : list nat) (pl pr : nat)
  : list nat * nat :=
  let pm := pl + Nat.div2 (pr - pl) in
  let t1 := median_of_three tosort pl pm pr in
  let vp := cell t1 pm in
  let pj := pr - 1 in
  let t2 := INTP_SWAP t1 pm pj in
  let (t3, pi) := exchange (length tosort) t2 vp pl pj in
  (INTP_SWAP t3 pi (pr - 1), pi).

(** The inner loop of the insertion: cells larger than [vp] move one place
    up; it ends with the array and the free place. *)
Fixpoint move_up (n : nat) (tosort : list nat) (pl : nat) (vp : float)
    (pj : nat) : list nat * nat :=
  match n with
  | 0 => (tosort, pj)
  | S n' =>
      if Nat.ltb pl pj && np_lt vp (cell tosort (pj - 1))
      then move_up n' (store tosort pj (nth (pj - 1) tosort 0)) pl vp (pj - 1)
      else (tosort, pj)
  end.

(** The insertion sort that finishes [pl .. pr]. *)
Definition insertion (tosort : list nat) (pl pr : nat) : list nat :=
  fold_left
    (fun t pi =>
       let vi := nth pi t 0 in
       let (t', pj) := move_up (length t) t pl (nth vi v nan) pi in
       store t' pj vi)
    (seq (S pl) (pr - pl)) tosort.

(** The inner loop of the heapsort, on the [n] cells [a[1] .. a[n]] with
    [a[k]] at place [pl + k - 1]: [tmp] sinks from [i]. *)
Fixpoint sift (fuel : nat) (tosort : list nat) (pl n tmp i j : nat)
  : list nat :=
  let a k := pl + k - 1 in
  match fuel with
  | 0 => store tosort (a i) tmp
  | S fuel' =>
      if Nat.leb j n then
        let j' :=
          if Nat.ltb j n && np_lt (cell tosort (a j)) (cell tosort (a (j + 1)))
          then j + 1 else j in
        if np_lt (nth tmp v nan) (cell tosort (a j'))
        then sift fuel' (store tosort (a i) (nth (a j') tosort 0))
                  pl n tmp j' (j' + j')
        else store tosort (a i) tmp
      else store tosort (a i) tmp
  end.

(** [aheapsort_] on the [n] cells from [pl]. *)
Definition aheapsort_ (tosort : list nat) (pl n : nat) : list nat :=
  let a k := pl + k - 1 in
  let heap :=
    fold_left
      (fun t l => sift n t pl n (nth (a l) t 0) l (2 * l))
      (rev (seq 1 (Nat.div2 n))) tosort in
  fold_left
    (fun t m =>
       let tmp := nth (a m) t 0 in
       sift n (store t (a m) (nth (a 1) t 0)) pl (m - 1) tmp 1 2)
    (rev (seq 2 (n - 1))) heap.

(** The loop [while ((pr - pl) > SMALL_QUICKSORT)]: partitions, the larger
    part pushed on the stack with the depth left, the smaller one taken
    on. *)
Fixpoint partitions (fuel : nat) (tosort : list nat) (pl pr : nat)
    (cdepth : Z) (stack : list (nat * nat * Z))
  : list nat * nat * nat * Z * list (nat * nat * Z) :=
  match fuel with
  | 0 => (tosort, pl, pr, cdepth, stack)
  | S fuel' =>
      if Nat.ltb SMALL_QUICKSORT (pr - pl) then
        let (t, pi) := quicksort_partition tosort pl pr in
        let cdepth' := (cdepth - 1)%Z in
        if Nat.ltb (pi - pl) (pr - pi)
        then partitions fuel' t pl (pi - 1) cdepth'
                        ((pi + 1, pr, cdepth') :: stack)
        else partitions fuel' t (pi + 1) pr cdepth'
                        ((pl, pi - 1, cdepth') :: stack)
      else (tosort, pl, pr, cdepth, stack)
  end.

(** The loop [while (1)]: a part is finished, by heapsort when the depth
    is used up, else by partitions and the insertion sort; then the next
    part is popped.  [None] when [fuel] rounds do not empty the stack. *)
Fixpoint rounds (fuel : nat) (tosort : list nat) (pl pr : nat) (cdepth : Z)
    (stack : list (nat * nat * Z)) : option (list nat) :=
  match fuel with
  | 0 => None
  | S fuel' =>
      let '(t, stack') :=
        if (cdepth <? 0)%Z
        then (aheapsort_ tosort pl (pr - pl + 1), stack)
        else
          let '(t, pl', pr', _, stack') :=
            partitions (length tosort) tosort pl pr cdepth stack in
          (insertion t pl' pr', stack') in
      match stack' with
      | [] => Some t
      | (pl', pr', cdepth') :: rest => rounds fuel' t pl' pr' cdepth' rest
      end
  end.

(** [aquicksort_] on the [num] indices of [tosort]. *)
Definition aquicksort_ (tosort : list nat) (num : nat) : option (list nat) :=
  rounds (S num) tosort 0 (num - 1) (npy_get_msb num * 2) [].

End Quicksort.

(** [a.argsort()] on a float64 buffer with the default [kind]: the indices
    in their order, sorted by [aquicksort_]. *)
Definition quicksort_argsort (a : list float) : list nat :=
  match aquicksort_ a (seq 0 (length a)) (length a) with
  | Some order => order
  | None => []
  end.

(** ** Instances and sample inputs *)

(** No [datetime] argument is involved in the samples. *)
Definition no_datetime : Type := Empty_set.

Definition no_mktime (dt : no_datetime) : result float :=
  match dt with end.

(** [Annotations([1.0], [0.5], ['x'])] *)
Definition sample_a : Annotations :=
  mkAnnotations [VFloat 1.0] [0.5%float] (Array1 ["x"]) None.

(** [Annotations([0.2], [0.1], ['y'])] *)
Definition sample_b : Annotations :=
  mkAnnotations [VFloat 0.2] [0.1%float] (Array1 ["y"]) None.

(** [Annotations([0.2, 0.3], [0.1, 0.1], ['y', 'z'], orig_time=5.0)] *)
Definition sample_absolute : Annotations :=
  mkAnnotations [VFloat 0.2; VFloat 0.3] [0.1%float; 0.1%float]
    (Array1 ["y"; "z"]) (Some 5.0%float).

(** [repr] and [float] on the numbers of the samples. *)
Definition sample_repr (x : float) : string :=
  if (x =? 1)%float then "1.0"
  else if (x =? 2.2)%float then "2.2"
  else if (x =? 0.5)%float then "0.5"
  else if (x =? 0.1)%float then "0.1"
  else "NaN".

Definition sample_float (s : string) : option float :=
  if String.eqb s "1.0" then Some 1%float
  else if String.eqb s "2.2" then Some 2.2%float
  else if String.eqb s "0.5" then Some 0.5%float
  else if String.eqb s "0.1" then Some 0.1%float
  else None.

(** The document of a set with the floats [onsets] as onsets. *)
Definition document (onsets : list float) (r : Annotations) : json :=
  JObject
    [("onset", JArray (map JNumber onsets));
     ("duration", JArray (map JNumber (duration r)));
     ("description", tolist (description r));
     ("orig_time",
       match orig_time r with
       | None => JNull
       | Some t => JNumber t
       end)].

(** Eighteen entries of one onset: the labels and the durations tell
    them apart. *)
Definition tied_onsets : list float := repeat 1%float 18.

Definition tied_durations : list float :=
  [1; 2; 3; 4; 5; 6; 7; 8; 9; 10; 11; 12; 13; 14; 15; 16; 17; 18]%float.

Definition tied_labels : list string :=
  ["a"; "b"; "c"; "d"; "e"; "f"; "g"; "h"; "i"; "j"; "k"; "l"; "m"; "n"; "o";
   "p"; "q"; "r"].

(** The three sequences of [r] are those of the input taken at the indices
    [order], each index once. *)
Definition in_lockstep (order : list nat) (co cd : list float)
    (s : ndarray string) (r : Annotations) : Prop :=
  Permutation order (seq 0 (length co)) /\
  take (map VFloat co) order = Ok (onset r) /\
  take cd order = Ok (duration r) /\
  take0 s order = Ok (description r).

(** The entries of the constructed [r] are those of the input under one
    permutation that sorts the onsets. *)
Definition sorts_in_lockstep (co cd : list float) (s : ndarray string)
    (r : Annotations) : Prop :=
  exists order,
    in_lockstep order co cd s r /\
    ascending (map (fun i => nth i co nan) order).

(** The entries of the constructed [r] are those of the input under one
    permutation that leaves entries of equal onset in their order. *)
Definition keeps_order_of_ties (co cd : list float) (s : ndarray string)
    (r : Annotations) : Prop :=
  exists order, in_lockstep order co cd s r /\ is_stable co order.

(** No cell of the array is smaller than a cell before it. *)
Definition nondecreasing (l : list value) : Prop :=
  forall i j x y, i < j ->
    nth_error l i = Some x -> nth_error l j = Some y ->
    value_lt y x <> Ok true.

(** The three sequences of [r] have one length. *)
Definition equal_lengths (r : Annotations) : Prop :=
  length (onset r) = length (duration r) /\
  len (description r) = Ok (length (duration r)).

(** The onsets are floats, none a NaN, each at most the next ones under
    the float comparison [<=]. *)
Definition leb_sorted (fl : list float) : Prop :=
  forall i j, i < j < length fl ->
    (nth i fl nan <=? nth j fl nan)%float = true.

(** The onsets of [r] are sorted: none is smaller than one before it, and
    when they are numbers (floats other than NaN) each is [<=] the later
    ones. *)
Definition sorted_onsets (r : Annotations) : Prop :=
  nondecreasing (onset r) /\
  forall fl, onset r = map VFloat fl ->
    Forall (fun x => is_nan x = false) fl -> leb_sorted fl.

(** A set of [fl] as onsets and the labels [sa] as a one-dimensional
    description, all of one length. *)
Definition is_plain (a : Annotations) (fl : list float) (sa : list string)
  : Prop :=
  onset a = map VFloat fl /\ description a = Array1 sa /\
  length fl = length (duration a) /\ length sa = length (duration a).

(** The inputs that construction is to refuse: an onset or a duration that
    is not one-dimensional, or three lengths that are not one number. *)
Definition rejected (o : ndarray value) (d : ndarray float)
    (s : ndarray string) : Prop :=
  ndim o <> 1 \/ ndim d <> 1 \/
  ~ (exists n, len o = Ok n /\ len d = Ok n /\ len s = Ok n).

(** ** Keys for the order of floats *)

(** A float by class, then exponent, then mantissa: numpy's order is the
    lexicographic order of these keys. *)
Definition sf_key (f : spec_float) : Z * Z * Z :=
  match f with
  | S754_nan => (3, 0, 0)
  | S754_infinity true => (-2, 0, 0)
  | S754_infinity false => (2, 0, 0)
  | S754_zero _ => (0, 0, 0)
  | S754_finite true m e => (-1, - e, - Zpos m)
  | S754_finite false m e => (1, e, Zpos m)
  end%Z.

Definition key_lt (a b : Z * Z * Z) : Prop :=
  let '(a1, a2, a3) := a in
  let '(b1, b2, b3) := b in
  (a1 < b1 \/ (a1 = b1 /\ (a2 < b2 \/ (a2 = b2 /\ a3 < b3))))%Z.

Definition sf_np_lt (a b : spec_float) : bool :=
  (SFltb a b || (negb (SFeqb b b) && negb (negb (SFeqb a a))))%bool.

Definition fkey (x : float) : Z * Z * Z := sf_key (Prim2SF x).

Ltac sf_cases x y :=
  destruct (Prim2SF x) as [[]|[]| |[] ? ?], (Prim2SF y) as [[]|[]| |[] ? ?];
  simpl;
  rewrite ?Z.compare_refl, ?Pos.compare_refl; simpl;
  try congruence;
  repeat match goal with
  | |- context [(?a ?= ?b)%Z] => destruct (Z.compare_spec a b); simpl
  | |- context [(?a ?= ?b)%positive] => destruct (Pos.compare_spec a b); simpl
  | |- context [PosDef.Pos.compare_cont Eq ?a ?b] =>
      change (PosDef.Pos.compare_cont Eq a b) with (Pos.compare a b)
  end; try congruence; try lia.

(** ** Documents that are read back as written *)

(** The first character of a value. *)
Definition value_start (c : ascii) : bool :=
  (Ascii.eqb c "n" || Ascii.eqb c quote || Ascii.eqb c "[" || Ascii.eqb c "{"
   || number_start c)%bool.

Definition starts_value (s : string) : Prop :=
  exists c s', s = String c s' /\ value_start c = true.

(** What may follow a number. *)
Definition ends_number (s : string) : Prop :=
  match s with
  | EmptyString => True
  | String c _ => number_char c = false
  end.

Section Documents.

Variable float_repr : float -> string.
Variable float_parse : string -> option float.

(** Every number of the document is written as a number text that is read
    back as the same number. *)
Fixpoint faithful (v : json) : Prop :=
  match v with
  | JNumber x =>
      number_text (float_repr x) = true /\
      float_parse (float_repr x) = Some x
  | JArray items => fold_right (fun x acc => faithful x /\ acc) True items
  | JObject members =>
      fold_right (fun kv acc => faithful (snd kv) /\ acc) True members
  | _ => True
  end.

Fixpoint size (v : json) : nat :=
  match v with
  | JArray items => S (fold_right (fun x acc => S (size x + acc)) 0 items)
  | JObject members =>
      S (fold_right (fun kv acc => S (size (snd kv) + acc)) 0 members)
  | _ => 1
  end.

Definition member_text (kv : string * json) : string :=
  (quoted (fst kv) ++ ": " ++ dumps float_repr (snd kv))%string.

(** The float [x] is written as a number text and read back as [x]. *)
Definition readable (x : float) : Prop :=
  number_text (float_repr x) = true /\
  float_parse (float_repr x) = Some x.

End Documents.

(** ** Entries, ties and order *)

(** The entries of a set: onset, duration and label, position by
    position. *)
Definition entries (fl cd : list float) (cs : list string)
  : list (float * float * string) :=
  combine (combine fl cd) cs.

(** Of any two cells of [a] one comes before the other in numpy's order:
    no two are equal in it. *)
Definition no_ties (a : list float) : Prop :=
  ForallOrdPairs (fun x y => np_lt x y = true \/ np_lt y x = true) a.

(** Each cell of [a] comes before the later ones in numpy's order. *)
Definition increasing (a : list float) : Prop :=
  StronglySorted (fun x y => np_lt x y = true) a.

(** ** The errors of construction *)




(** ** The shift of a merge, written out *)

(** The integer [n] as a float: the nearest binary64 number, ties to
    even. *)
Definition nearest_float (n : Z) : float :=
  SF2Prim (binary_normalize prec emax n 0 false).

(** * Properties *)

(** ** The order of floats *)

Lemma sf_np_lt_key a b : sf_np_lt a b = true <-> key_lt (sf_key a) (sf_key b).
Proof.
  unfold sf_np_lt, SFltb, SFeqb, key_lt.
  destruct a as [sa|sa| |sa ma ea], b as [sb|sb| |sb mb eb]; simpl;
    try destruct sa; try destruct sb; simpl;
    rewrite ?Z.compare_refl, ?Pos.compare_cont_refl; simpl;
    try (split; [ discriminate | lia ]);
    try (split; [ lia | reflexivity ]).
  all: change (PosDef.Pos.compare_cont Eq ma mb) with (Pos.compare ma mb).
  all: destruct (Z.compare_spec ea eb); simpl;
       try destruct (Pos.compare_spec ma mb); simpl;
       split; try discriminate; try reflexivity; try lia.
Qed.

Lemma np_lt_spec x y : np_lt x y = sf_np_lt (Prim2SF x) (Prim2SF y).
Proof.
  unfold np_lt, sf_np_lt, is_nan. now rewrite ltb_spec, !eqb_spec.
Qed.

Lemma np_lt_key x y : np_lt x y = true <-> key_lt (fkey x) (fkey y).
Proof. rewrite np_lt_spec. apply sf_np_lt_key. Qed.

Lemma np_lt_asym x y : np_lt x y = true -> np_lt y x = false.
Proof.
  intros H. destruct (np_lt y x) eqn:E; [|reflexivity].
  apply np_lt_key in H, E. unfold key_lt in *.
  destruct (fkey x) as [[a1 a2] a3], (fkey y) as [[b1 b2] b3]. lia.
Qed.

Lemma np_lt_negtrans x y z :
  np_lt y x = false -> np_lt z y = false -> np_lt z x = false.
Proof.
  intros H1 H2. destruct (np_lt z x) eqn:E; [|reflexivity].
  apply np_lt_key in E.
  assert (N1 : ~ key_lt (fkey y) (fkey x)) by (rewrite <- np_lt_key; congruence).
  assert (N2 : ~ key_lt (fkey z) (fkey y)) by (rewrite <- np_lt_key; congruence).
  unfold key_lt in *.
  destruct (fkey x) as [[a1 a2] a3], (fkey y) as [[b1 b2] b3],
    (fkey z) as [[c1 c2] c3]. lia.
Qed.

Lemma np_lt_trans x y z :
  np_lt x y = true -> np_lt y z = true -> np_lt x z = true.
Proof.
  rewrite !np_lt_key. unfold key_lt.
  destruct (fkey x) as [[a1 a2] a3], (fkey y) as [[b1 b2] b3],
    (fkey z) as [[c1 c2] c3]. lia.
Qed.

Lemma np_lt_of_ltb x y : (x <? y)%float = true -> np_lt x y = true.
Proof. unfold np_lt. now intros ->. Qed.

Lemma ltb_of_np_lt_false x y : np_lt x y = false -> (x <? y)%float = false.
Proof. unfold np_lt. now intros [H _]%orb_false_elim. Qed.

Lemma leb_of_not_ltb x y :
  is_nan x = false -> is_nan y = false ->
  (y <? x)%float = false -> (x <=? y)%float = true.
Proof.
  unfold is_nan. rewrite ltb_spec, leb_spec, !eqb_spec.
  unfold SFltb, SFleb, SFeqb. sf_cases x y.
Qed.

Lemma np_lt_false_of_eqb x y : (x =? y)%float = true -> np_lt x y = false.
Proof.
  unfold np_lt, is_nan. rewrite ltb_spec, !eqb_spec.
  unfold SFltb, SFeqb. sf_cases x y.
Qed.

(** ** Indexing *)

Lemma take_Ok {A : Type} (d : A) (l : list A) (idx : list nat) :
  Forall (fun i => i < length l) idx ->
  take l idx = Ok (map (fun i => nth i l d) idx).
Proof.
  induction 1 as [|i idx Hi _ IH]; simpl; [reflexivity|].
  destruct (nth_error l i) as [x|] eqn:E.
  - rewrite IH. simpl. now rewrite (nth_error_nth _ _ d E).
  - apply nth_error_None in E. lia.
Qed.

Lemma take_inv {A : Type} (d : A) (l : list A) (idx : list nat) (r : list A) :
  take l idx = Ok r ->
  r = map (fun i => nth i l d) idx /\ Forall (fun i => i < length l) idx.
Proof.
  revert r. induction idx as [|i idx IH]; simpl; intros r H.
  - injection H as <-. split; constructor.
  - destruct (nth_error l i) as [x|] eqn:E; [|discriminate].
    destruct (take l idx) as [xs|] eqn:T; simpl in H; [|discriminate].
    injection H as <-. destruct (IH _ eq_refl) as [-> F]. split.
    + simpl. now rewrite (nth_error_nth _ _ d E).
    + constructor; [|exact F]. apply nth_error_Some. congruence.
Qed.

Lemma take_length {A : Type} (l : list A) (idx : list nat) (r : list A) :
  take l idx = Ok r -> length r = length idx.
Proof.
  revert r. induction idx as [|i idx IH]; simpl; intros r H.
  - now injection H as <-.
  - destruct (nth_error l i); [|discriminate].
    destruct (take l idx) as [xs|]; simpl in H; [|discriminate].
    injection H as <-. simpl. now rewrite (IH _ eq_refl).
Qed.

Lemma Permutation_seq_bound (order : list nat) (n : nat) :
  Permutation order (seq 0 n) -> Forall (fun i => i < n) order.
Proof.
  intros P. apply Forall_forall. intros i Hi.
  apply (Permutation_in _ P), in_seq in Hi. lia.
Qed.

Lemma Permutation_seq_length (order : list nat) (n : nat) :
  Permutation order (seq 0 n) -> length order = n.
Proof. intros P. now rewrite (Permutation_length P), length_seq. Qed.

Lemma map_nth_seq {A : Type} (d : A) (l : list A) :
  map (fun i => nth i l d) (seq 0 (length l)) = l.
Proof.
  induction l as [|x l IH]; simpl; [reflexivity|].
  rewrite <- seq_shift, map_map. simpl. now rewrite IH.
Qed.

Lemma take_Permutation {A : Type} (l : list A) (order : list nat) :
  Permutation order (seq 0 (length l)) ->
  exists r, take l order = Ok r /\ Permutation l r.
Proof.
  intros P. destruct l as [|d l'] eqn:El.
  - apply Permutation_sym, Permutation_nil in P. subst order.
    exists []. split; [reflexivity|constructor].
  - rewrite <- El in *. exists (map (fun i => nth i l d) order). split.
    + apply take_Ok. now apply Permutation_seq_bound.
    + rewrite <- (map_nth_seq d l) at 1.
      apply Permutation_map. now apply Permutation_sym.
Qed.

Lemma as_floats_inv (l : list value) (fl : list float) :
  as_floats l = Some fl -> l = map VFloat fl.
Proof.
  revert fl. induction l as [|[x|o] l IH]; simpl; intros fl H.
  - now injection H as <-.
  - destruct (as_floats l) as [fl'|]; [|discriminate].
    injection H as <-. simpl. now rewrite (IH _ eq_refl).
  - discriminate.
Qed.

Lemma as_floats_map (fl : list float) : as_floats (map VFloat fl) = Some fl.
Proof. induction fl as [|x fl IH]; simpl; [reflexivity|]. now rewrite IH. Qed.

Lemma as_floats_None (l : list value) :
  as_floats l = None -> exists o, In (VObject o) l.
Proof.
  induction l as [|[x|o] l IH]; simpl; intros H.
  - discriminate.
  - destruct (as_floats l); [discriminate|].
    destruct (IH eq_refl) as [o Ho]. exists o. now right.
  - exists o. now left.
Qed.

(** ** The two sorts meet the contract *)

Lemma StronglySorted_nth {A : Type} (R : A -> A -> Prop) (d : A) (l : list A) :
  StronglySorted R l ->
  forall i j, i < j < length l -> R (nth i l d) (nth j l d).
Proof.
  induction 1 as [|x l S IH F]; simpl; intros i j Hij; [lia|].
  destruct j as [|j]; [lia|]. destruct i as [|i].
  - rewrite Forall_forall in F. apply F, nth_In. lia.
  - apply IH. lia.
Qed.

Lemma insert_index_perm (before : nat -> nat -> bool) (i : nat) (l : list nat) :
  Permutation (insert_index before i l) (i :: l).
Proof.
  induction l as [|j l IH]; simpl; [constructor; constructor|].
  destruct (before i j); [apply Permutation_refl|].
  eapply perm_trans; [apply perm_skip, IH|apply perm_swap].
Qed.

Lemma fold_insert_perm (before : nat -> nat -> bool) (l : list nat) :
  Permutation (fold_right (insert_index before) [] l) l.
Proof.
  induction l as [|i l IH]; simpl; [constructor|].
  eapply perm_trans; [apply insert_index_perm|now apply perm_skip].
Qed.

Section InsertionSort.

Variable before : nat -> nat -> bool.
Variable R : nat -> nat -> Prop.
Variable dom : nat -> nat -> Prop.

(** [dom i j]: [i] is inserted while [j] is already there. *)
Hypothesis R_trans : forall i j k, R i j -> R j k -> R i k.
Hypothesis before_true : forall i j, dom i j -> before i j = true -> R i j.
Hypothesis before_false : forall i j, dom i j -> before i j = false -> R j i.

Lemma insert_index_sorted (i : nat) (l : list nat) :
  Forall (dom i) l -> StronglySorted R l ->
  StronglySorted R (insert_index before i l).
Proof.
  intros D S. induction S as [|j l S IH F]; simpl.
  - repeat constructor.
  - inversion D as [|? ? Dj Dl]; subst.
    destruct (before i j) eqn:B.
    + constructor; [now constructor|]. constructor.
      * now apply before_true.
      * eapply Forall_impl; [|exact F]. intros k Hk.
        apply (R_trans i j k); [now apply before_true|exact Hk].
    + constructor; [now apply IH|].
      apply (Permutation_Forall (Permutation_sym (insert_index_perm _ _ _))).
      constructor; [now apply before_false|exact F].
Qed.

Lemma fold_insert_sorted (s n : nat) :
  (forall i j, s <= i < j -> j < s + n -> dom i j) ->
  StronglySorted R (fold_right (insert_index before) [] (seq s n)).
Proof.
  revert s. induction n as [|n IH]; intros s D; simpl; [constructor|].
  apply insert_index_sorted.
  - apply (Permutation_Forall (Permutation_sym (fold_insert_perm _ _))).
    apply Forall_forall. intros j Hj. apply in_seq in Hj. apply D; lia.
  - apply IH. intros i j Hi Hj. apply D; lia.
Qed.

End InsertionSort.

Lemma nth_map_in {A B : Type} (f : A -> B) (l : list A) (d : A) (e : B) k :
  k < length l -> nth k (map f l) e = f (nth k l d).
Proof.
  intros H. rewrite (nth_indep _ e (f d)) by now rewrite length_map.
  apply map_nth.
Qed.

Lemma ascending_of_sorted (a : list float) (order : list nat) :
  StronglySorted (fun i j => np_lt (nth j a nan) (nth i a nan) = false) order ->
  ascending (map (fun i => nth i a nan) order).
Proof.
  intros S i j Hij. rewrite length_map in Hij.
  rewrite (nth_map_in _ order 0 nan i), (nth_map_in _ order 0 nan j) by lia.
  now apply (StronglySorted_nth _ 0 order S i j).
Qed.

Lemma argsort_by_spec (before : float -> float -> bool) :
  (forall x y, before x y = true -> np_lt y x = false) ->
  (forall x y, before x y = false -> np_lt x y = false) ->
  forall a, is_argsort a (argsort_by before a).
Proof.
  intros Ht Hf a. split; [apply fold_insert_perm|].
  apply ascending_of_sorted.
  apply fold_insert_sorted with (dom := fun _ _ => True); auto.
  intros i j k H1 H2. exact (np_lt_negtrans _ _ _ H1 H2).
Qed.

Lemma stable_argsort_spec (a : list float) : is_argsort a (stable_argsort a).
Proof.
  apply argsort_by_spec; intros x y H.
  - now apply negb_true_iff in H.
  - apply negb_false_iff in H. now apply np_lt_asym.
Qed.

Lemma reversing_argsort_spec (a : list float) :
  is_argsort a (reversing_argsort a).
Proof.
  apply argsort_by_spec; intros x y H.
  - now apply np_lt_asym.
  - exact H.
Qed.

Lemma stable_argsort_stable (a : list float) : is_stable a (stable_argsort a).
Proof.
  pose (key i := nth i a nan).
  pose (R i j := np_lt (key i) (key j) = true \/
                 (np_lt (key j) (key i) = false /\ i < j)).
  assert (S : StronglySorted R (stable_argsort a)).
  { apply fold_insert_sorted with (dom := fun i j => i < j).
    - intros i j k [H1|[H1 L1]] [H2|[H2 L2]].
      + left. now apply (np_lt_trans _ (key j)).
      + destruct (np_lt (key i) (key k)) eqn:E; [now left|exfalso].
        pose proof (np_lt_negtrans _ _ _ H2 E). congruence.
      + destruct (np_lt (key i) (key k)) eqn:E; [now left|exfalso].
        pose proof (np_lt_negtrans _ _ _ E H1). congruence.
      + right. split; [now apply (np_lt_negtrans _ (key j))|lia].
    - intros i j L H. apply negb_true_iff in H. right. now split.
    - intros i j L H. apply negb_false_iff in H. now left.
    - intros; lia. }
  intros p q Hpq E.
  destruct (StronglySorted_nth R 0 _ S p q Hpq) as [H|[_ H]]; [|exact H].
  apply np_lt_false_of_eqb in E. unfold key in H. congruence.
Qed.

(** ** Reading back what [json.dumps] wrote *)

Lemma append_assoc (a b c : string) : ((a ++ b) ++ c = a ++ (b ++ c))%string.
Proof. induction a as [|x a IH]; simpl; [reflexivity|]. now rewrite IH. Qed.

Lemma length_append (a b : string) :
  String.length (a ++ b) = String.length a + String.length b.
Proof. induction a as [|x a IH]; simpl; [reflexivity|]. now rewrite IH. Qed.

Lemma parse_chars_escape (c : ascii) (s : string) :
  parse_chars (escape c ++ s) =
  match parse_chars s with
  | Some (t, r) => Some (String c t, r)
  | None => None
  end.
Proof.
  destruct c as [[] [] [] [] [] [] [] []]; reflexivity.
Qed.

Lemma parse_chars_quoted (s rest : string) :
  parse_chars (escape_string s ++ String quote rest) = Some (s, rest).
Proof.
  induction s as [|c s IH]; simpl; [reflexivity|].
  now rewrite append_assoc, parse_chars_escape, IH.
Qed.

Lemma join_cons sep x y l :
  join sep (x :: y :: l) = (x ++ sep ++ join sep (y :: l))%string.
Proof. reflexivity. Qed.

Lemma append_nil_r (a : string) : (a ++ "")%string = a.
Proof. induction a as [|x a IH]; simpl; [reflexivity|]. now rewrite IH. Qed.

Lemma json_induction (P : json -> Prop) :
  P JNull -> (forall x, P (JNumber x)) -> (forall s, P (JString s)) ->
  (forall items, Forall P items -> P (JArray items)) ->
  (forall members, Forall (fun kv => P (snd kv)) members -> P (JObject members)) ->
  forall v, P v.
Proof.
  intros Hn Hx Hs Ha Ho. fix IH 1.
  intros [|x|s|items|members]; [apply Hn|apply Hx|apply Hs| |].
  - apply Ha. induction items as [|v items IHi]; constructor.
    + apply IH.
    + exact IHi.
  - apply Ho. induction members as [|[k v] members IHm]; constructor.
    + apply IH.
    + exact IHm.
Qed.

Lemma value_start_not_space c :
  value_start c = true ->
  Ascii.eqb c " " = false /\ Ascii.eqb c "]" = false /\ Ascii.eqb c "}" = false.
Proof. destruct c as [[] [] [] [] [] [] [] []]; intros H; try discriminate H; now repeat split. Qed.

Lemma number_start_dispatch c :
  number_start c = true ->
  Ascii.eqb c "n" = false /\ Ascii.eqb c quote = false /\
  Ascii.eqb c "[" = false /\ Ascii.eqb c "{" = false.
Proof. destruct c as [[] [] [] [] [] [] [] []]; intros H; try discriminate H; now repeat split. Qed.

Lemma skip_spaces_value s rest :
  starts_value s -> skip_spaces (String " " (s ++ rest)) = (s ++ rest)%string.
Proof.
  intros (c & s' & -> & H). simpl.
  now destruct (value_start_not_space c H) as (-> & _).
Qed.

Lemma span_number_text tok rest :
  all_number_chars tok = true -> ends_number rest ->
  span_number (tok ++ rest) = (tok, rest).
Proof.
  intros H E. induction tok as [|c tok IH]; simpl in *.
  - destruct rest as [|c rest]; [reflexivity|]. simpl in *. now rewrite E.
  - apply andb_true_iff in H. destruct H as [-> H]. now rewrite IH.
Qed.

Section Roundtrip.

Variable float_repr : float -> string.
Variable float_parse : string -> option float.

Notation faithful := (faithful float_repr float_parse).
Notation member_text := (member_text float_repr).
Notation dumps := (dumps float_repr).
Notation parse := (parse float_parse).
Notation parse_items := (parse_items float_parse).
Notation parse_members := (parse_members float_parse).

Lemma dumps_starts_value v : faithful v -> starts_value (dumps v).
Proof.
  destruct v as [|x|s|items|members]; simpl; intros F.
  - now exists "n"%char, "ull".
  - destruct F as [F _]. destruct (float_repr x) as [|c s]; [discriminate|].
    exists c, s. split; [reflexivity|].
    simpl in F. apply andb_true_iff in F. destruct F as [F _].
    unfold value_start. rewrite F. now rewrite !orb_true_r.
  - eexists _, _. split; [reflexivity|reflexivity].
  - eexists _, _. split; [reflexivity|reflexivity].
  - eexists _, _. split; [reflexivity|reflexivity].
Qed.

Lemma parse_items_join fuel items rest :
  Forall (fun v => forall fuel rest, size v <= fuel -> faithful v ->
                   ends_number rest ->
                   parse fuel (dumps v ++ rest) = Some (v, rest)) items ->
  items <> [] ->
  fold_right (fun x acc => S (size x + acc)) 0 items <= fuel ->
  fold_right (fun x acc => faithful x /\ acc) True items ->
  parse_items fuel (join ", " (map dumps items) ++ String "]" rest) =
  Some (items, rest).
Proof.
  intros H. revert fuel. induction H as [|v items Hv _ IH]; intros fuel N S F;
    [congruence|].
  simpl in S, F. destruct F as [Fv F].
  destruct fuel as [|fuel]; [lia|]. simpl.
  destruct items as [|v2 items].
  - simpl. rewrite Hv; [|lia|exact Fv|reflexivity]. reflexivity.
  - change (map dumps (v2 :: items)) with (dumps v2 :: map dumps items).
    cbv iota. rewrite !append_assoc.
    rewrite Hv; [|lia|exact Fv|reflexivity]. simpl.
    assert (E : skip_spaces
                  (String " " (join ", " (map dumps (v2 :: items)) ++ String "]" rest))
                = (join ", " (map dumps (v2 :: items)) ++ String "]" rest)%string).
    { destruct (dumps_starts_value v2 (proj1 F)) as (c & s' & Hc & V).
      simpl. destruct (map dumps items); rewrite Hc; simpl;
        now destruct (value_start_not_space c V) as (-> & _). }
    simpl in E. simpl. rewrite E.
    rewrite IH; [reflexivity|discriminate|simpl in *; lia|exact F].
Qed.

Lemma parse_members_join fuel members rest :
  Forall (fun kv => forall fuel rest, size (snd kv) <= fuel ->
                    faithful (snd kv) -> ends_number rest ->
                    parse fuel (dumps (snd kv) ++ rest) = Some (snd kv, rest))
         members ->
  members <> [] ->
  fold_right (fun kv acc => S (size (snd kv) + acc)) 0 members <= fuel ->
  fold_right (fun kv acc => faithful (snd kv) /\ acc) True members ->
  parse_members fuel (join ", " (map member_text members) ++ String "}" rest) =
  Some (members, rest).
Proof.
  intros H. revert fuel. induction H as [|[k v] members Hv _ IH];
    intros fuel N S F; [congruence|].
  simpl in S, F, Hv. destruct F as [Fv F].
  destruct fuel as [|fuel]; [lia|].
  assert (K : forall tail,
             parse_members (Datatypes.S fuel) (member_text (k, v) ++ tail) =
             match parse fuel (dumps v ++ tail) with
             | Some (v', String c rest') =>
                 if Ascii.eqb c ","
                 then match parse_members fuel (skip_spaces rest') with
                      | Some (ms, r) => Some ((k, v') :: ms, r)
                      | None => None
                      end
                 else if Ascii.eqb c "}" then Some ([(k, v')], rest')
                 else None
             | _ => None
             end).
  { intros tail. unfold member_text, quoted. simpl.
    rewrite !append_assoc. simpl. rewrite parse_chars_quoted. simpl.
    destruct (dumps_starts_value v Fv) as (c & s' & Hc & V).
    rewrite Hc. simpl.
    now destruct (value_start_not_space c V) as (-> & _). }
  destruct members as [|kv2 members].
  - simpl join. rewrite K, Hv; [|lia|exact Fv|reflexivity]. reflexivity.
  - change (join ", " (map member_text ((k, v) :: kv2 :: members)))
      with (member_text (k, v) ++ ", " ++ join ", " (map member_text (kv2 :: members)))%string.
    rewrite !append_assoc, K, Hv; [|lia|exact Fv|reflexivity]. simpl.
    assert (E : skip_spaces
                  (String " " (join ", " (map member_text (kv2 :: members))
                               ++ String "}" rest))
                = (join ", " (map member_text (kv2 :: members)) ++ String "}" rest)%string).
    { simpl. destruct (map member_text members); reflexivity. }
    simpl in E. rewrite E.
    rewrite IH; [reflexivity|discriminate|simpl in *; lia|exact F].
Qed.

Lemma parse_array fuel body :
  starts_value body ->
  parse (S fuel) (String "[" body) =
  match parse_items fuel body with
  | Some (items, rest) => Some (JArray items, rest)
  | None => None
  end.
Proof.
  intros (c & s' & -> & V). simpl.
  now destruct (value_start_not_space c V) as (_ & -> & _).
Qed.

Lemma parse_object fuel body :
  starts_value body ->
  parse (S fuel) (String "{" body) =
  match parse_members fuel body with
  | Some (members, rest) => Some (JObject members, rest)
  | None => None
  end.
Proof.
  intros (c & s' & -> & V). simpl.
  now destruct (value_start_not_space c V) as (_ & _ & ->).
Qed.

Lemma join_items_starts_value (l : list json) tail :
  l <> [] -> fold_right (fun x acc => faithful x /\ acc) True l ->
  starts_value (join ", " (map dumps l) ++ tail).
Proof.
  destruct l as [|v l]; [congruence|]. intros _ [F _].
  destruct (dumps_starts_value v F) as (c & s' & Hc & V).
  exists c. simpl. destruct (map dumps l); rewrite Hc; simpl; eauto.
Qed.

Lemma join_members_starts_value (l : list (string * json)) tail :
  l <> [] -> starts_value (join ", " (map member_text l) ++ tail).
Proof.
  destruct l as [|kv l]; [congruence|]. intros _.
  exists quote. simpl. destruct (map member_text l); simpl; eauto.
Qed.

Theorem parse_dumps v :
  forall fuel rest, size v <= fuel -> faithful v -> ends_number rest ->
    parse fuel (dumps v ++ rest) = Some (v, rest).
Proof.
  induction v as [|x|s|items IH|members IH] using json_induction;
    intros fuel rest S F E; (destruct fuel as [|fuel]; [simpl in S; lia|]).
  - reflexivity.
  - simpl in F. destruct F as [T R]. simpl dumps.
    destruct (float_repr x) as [|c tok] eqn:Ex; [discriminate|].
    simpl in T. apply andb_true_iff in T. destruct T as [T1 T2].
    destruct (number_start_dispatch c T1) as (N1 & N2 & N3 & N4).
    simpl. rewrite N1, N2, N3, N4.
    assert (Sp : span_number (String c tok ++ rest) = (String c tok, rest)).
    { apply span_number_text; [|exact E]. simpl. now rewrite T2. }
    simpl in Sp. rewrite Sp. now rewrite R.
  - simpl. unfold quoted. rewrite append_assoc. simpl.
    now rewrite parse_chars_quoted.
  - destruct items as [|v items]; [reflexivity|].
    change (dumps (JArray (v :: items)) ++ rest)%string
      with (String "[" ((join ", " (map dumps (v :: items)) ++ "]") ++ rest)).
    rewrite append_assoc. change ("]" ++ rest)%string with (String "]" rest).
    rewrite parse_array by (apply join_items_starts_value; [discriminate|exact F]).
    simpl in S.
    rewrite (parse_items_join fuel (v :: items) rest IH);
      [reflexivity|discriminate|simpl; lia|exact F].
  - destruct members as [|kv members]; [reflexivity|].
    change (dumps (JObject (kv :: members)) ++ rest)%string
      with (String "{" ((join ", " (map member_text (kv :: members)) ++ "}") ++ rest)).
    rewrite append_assoc. change ("}" ++ rest)%string with (String "}" rest).
    rewrite parse_object by (apply join_members_starts_value; discriminate).
    simpl in S.
    rewrite (parse_members_join fuel (kv :: members) rest IH);
      [reflexivity|discriminate|simpl; lia|exact F].
Qed.

Lemma size_le_length v : faithful v -> size v <= String.length (dumps v).
Proof.
  induction v as [|x|s|items IH|members IH] using json_induction; intros F.
  - simpl. lia.
  - simpl in *. destruct F as [T _]. destruct (float_repr x); [discriminate|].
    simpl. lia.
  - simpl. lia.
  - simpl. rewrite length_append. simpl.
    assert (B : fold_right (fun x acc => S (size x + acc)) 0 items
                <= S (String.length (join ", " (map dumps items)))).
    { clear - IH F. induction IH as [|v items Hv _ IHi]; simpl; [lia|].
      simpl in F. destruct F as [Fv F]. specialize (Hv Fv). specialize (IHi F).
      destruct items as [|v2 items]; [simpl; lia|].
      change (map dumps (v2 :: items)) with (dumps v2 :: map dumps items) in *.
      cbv iota. rewrite !length_append. simpl in *. lia. }
    lia.
  - cbn [size dumps].
    change (map (fun kv => (quoted (fst kv) ++ ": " ++ dumps (snd kv))%string) members)
      with (map member_text members).
    rewrite !length_append. cbn [String.length].
    assert (B : fold_right (fun kv acc => S (size (snd kv) + acc)) 0 members
                <= S (String.length (join ", " (map member_text members)))).
    { clear - IH F. induction IH as [|[k v] members Hv _ IHi]; [simpl; lia|].
      simpl in F, Hv. destruct F as [Fv F]. specialize (Hv Fv). specialize (IHi F).
      assert (L : size v <= String.length (member_text (k, v))).
      { unfold member_text. simpl. rewrite !length_append. simpl. lia. }
      cbn [fold_right map snd].
      destruct members as [|kv2 members]; [cbn [join map fold_right]; lia|].
      cbn [map] in *. rewrite join_cons, !length_append.
      cbn [String.length]. lia. }
    lia.
Qed.

(** Reading back what was written gives the document. *)
Theorem loads_dumps v : faithful v -> loads float_parse (dumps v) = Some v.
Proof.
  intros F. unfold loads.
  rewrite <- (append_nil_r (dumps v)) at 2.
  rewrite parse_dumps; [reflexivity| |exact F|exact I].
  pose proof (size_le_length v F). lia.
Qed.
End Roundtrip.

(** ** Sorting without ties *)

Lemma ForallOrdPairs_nth {A : Type} (R : A -> A -> Prop) (d : A) (l : list A) :
  ForallOrdPairs R l ->
  forall i j, i < j < length l -> R (nth i l d) (nth j l d).
Proof.
  induction 1 as [|x l F _ IH]; simpl; intros i j Hij; [lia|].
  destruct j as [|j]; [lia|]. destruct i as [|i].
  - rewrite Forall_forall in F. apply F, nth_In. lia.
  - apply IH. lia.
Qed.

Lemma StronglySorted_of_nth {A : Type} (R : A -> A -> Prop) (d : A) (l : list A) :
  (forall i j, i < j < length l -> R (nth i l d) (nth j l d)) ->
  StronglySorted R l.
Proof.
  induction l as [|x l IH]; intros H; constructor.
  - apply IH. intros i j Hij. apply (H (S i) (S j)). simpl. lia.
  - apply Forall_forall. intros y Hy.
    destruct (In_nth _ _ d Hy) as (k & Hk & <-).
    apply (H 0 (S k)). simpl. lia.
Qed.

Lemma StronglySorted_map {A B : Type} (R : B -> B -> Prop) (f : A -> B) l :
  StronglySorted (fun x y => R (f x) (f y)) l -> StronglySorted R (map f l).
Proof.
  induction 1 as [|x l S IH F]; simpl; constructor; [exact IH|].
  rewrite Forall_forall in *. intros y Hy.
  apply in_map_iff in Hy. destruct Hy as (z & <- & Hz). now apply F.
Qed.

(** Two lists with the same members, each sorted for a strict order, are
    one list. *)
Lemma strict_sorted_unique {A : Type} (R : A -> A -> Prop) :
  (forall x y, R x y -> R y x -> False) ->
  forall l1 l2, StronglySorted R l1 -> StronglySorted R l2 ->
    Permutation l1 l2 -> l1 = l2.
Proof.
  intros asym. induction l1 as [|x l1 IH]; intros l2 S1 S2 P.
  - now apply Permutation_nil in P.
  - destruct l2 as [|y l2];
      [apply Permutation_sym, Permutation_nil in P; discriminate|].
    inversion S1 as [|? ? S1' F1]; subst. inversion S2 as [|? ? S2' F2]; subst.
    rewrite Forall_forall in F1, F2.
    assert (E : x = y).
    { assert (Hx : In x (y :: l2)) by (apply (Permutation_in _ P); now left).
      assert (Hy : In y (x :: l1))
        by (apply (Permutation_in _ (Permutation_sym P)); now left).
      destruct Hx as [Hx|Hx]; [now symmetry|].
      destruct Hy as [Hy|Hy]; [exact Hy|].
      exfalso. exact (asym x y (F1 y Hy) (F2 x Hx)). }
    subst y. f_equal. apply IH; auto. now apply Permutation_cons_inv in P.
Qed.

Lemma no_ties_Permutation a b :
  Permutation a b -> no_ties a -> no_ties b.
Proof.
  unfold no_ties. induction 1 as [|x l l' P IH|x y l|l l' l'' P1 IH1 P2 IH2];
    intros H.
  - constructor.
  - inversion H as [|? ? F T]; subst. constructor; [|now apply IH].
    now apply (Permutation_Forall P).
  - inversion H as [|? ? Fy T]; subst. inversion T as [|? ? Fx T']; subst.
    inversion Fy as [|? ? Ryx Fy']; subst.
    constructor; [|now constructor].
    constructor; [tauto|exact Fx].
  - auto.
Qed.

Lemma increasing_no_ties a : increasing a -> no_ties a.
Proof.
  unfold increasing, no_ties. induction 1 as [|x l S IH F]; constructor.
  - eapply Forall_impl; [|exact F]. intros y Hy. now left.
  - exact IH.
Qed.

(** Without ties a sort puts each cell strictly before the next. *)
Lemma argsort_strict a o :
  no_ties a -> is_argsort a o ->
  StronglySorted (fun i j => np_lt (nth i a nan) (nth j a nan) = true) o.
Proof.
  intros T [P A]. apply (StronglySorted_of_nth _ 0). intros p q Hpq.
  assert (N : NoDup o)
    by (apply (Permutation_NoDup (Permutation_sym P)), seq_NoDup).
  assert (B : forall k, k < length o -> nth k o 0 < length a).
  { intros k Hk.
    assert (I : In (nth k o 0) (seq 0 (length a)))
      by (apply (Permutation_in _ P), nth_In, Hk).
    apply in_seq in I. lia. }
  specialize (A p q). rewrite length_map in A. specialize (A Hpq).
  rewrite (nth_map_in _ o 0 nan p), (nth_map_in _ o 0 nan q) in A by lia.
  assert (D : nth p o 0 <> nth q o 0).
  { intros E. apply (proj1 (NoDup_nth o 0) N) in E; lia. }
  assert (Bp := B p ltac:(lia)). assert (Bq := B q ltac:(lia)).
  destruct (Nat.lt_total (nth p o 0) (nth q o 0)) as [L|[L|L]]; [|lia|].
  - destruct (ForallOrdPairs_nth _ nan a T _ _ (conj L Bq)) as [H|H];
      [exact H|congruence].
  - destruct (ForallOrdPairs_nth _ nan a T _ _ (conj L Bp)) as [H|H];
      [congruence|exact H].
Qed.

(** Without ties the contract of [argsort] leaves one answer. *)
Lemma argsort_unique a o1 o2 :
  no_ties a -> is_argsort a o1 -> is_argsort a o2 -> o1 = o2.
Proof.
  intros T H1 H2.
  apply (strict_sorted_unique
           (fun i j => np_lt (nth i a nan) (nth j a nan) = true)).
  - intros i j L1 L2. apply np_lt_asym in L1. congruence.
  - now apply argsort_strict.
  - now apply argsort_strict.
  - eapply perm_trans; [exact (proj1 H1)|apply Permutation_sym, H2].
Qed.

Lemma ascending_increasing a : increasing a -> ascending a.
Proof.
  intros I i j Hij. apply np_lt_asym.
  exact (StronglySorted_nth _ nan a I i j Hij).
Qed.

(** An array that is increasing already is sorted by the identity. *)
Lemma argsort_increasing a o :
  increasing a -> is_argsort a o -> o = seq 0 (length a).
Proof.
  intros I H. apply (argsort_unique a); [now apply increasing_no_ties|exact H|].
  split; [apply Permutation_refl|].
  rewrite map_nth_seq. now apply ascending_increasing.
Qed.

(** ** Entries *)

Lemma combine_map_both {A B C : Type} (f : A -> B) (g : A -> C) l :
  List.combine (map f l) (map g l) = map (fun x => (f x, g x)) l.
Proof. induction l as [|x l IH]; simpl; [reflexivity|]. now rewrite IH. Qed.

Lemma map_fst_combine {A B : Type} (l : list A) (l' : list B) :
  length l = length l' -> map fst (List.combine l l') = l.
Proof.
  revert l'. induction l as [|x l IH]; intros [|y l'] H; simpl in *;
    try discriminate; [reflexivity|].
  rewrite IH; [reflexivity|lia].
Qed.

Lemma map_snd_combine {A B : Type} (l : list A) (l' : list B) :
  length l = length l' -> map snd (List.combine l l') = l'.
Proof.
  revert l'. induction l as [|x l IH]; intros [|y l'] H; simpl in *;
    try discriminate; [reflexivity|].
  rewrite IH; [reflexivity|lia].
Qed.

Lemma combine_append {A B : Type} (l1 l2 : list A) (m1 m2 : list B) :
  length l1 = length m1 ->
  List.combine (l1 ++ l2) (m1 ++ m2) = List.combine l1 m1 ++ List.combine l2 m2.
Proof.
  revert m1. induction l1 as [|x l1 IH]; intros [|y m1] H; simpl in *;
    try discriminate; [reflexivity|].
  rewrite IH; [reflexivity|lia].
Qed.

Lemma entries_length fl cd cs :
  length fl = length cd -> length cs = length cd ->
  length (entries fl cd cs) = length cd.
Proof. intros H1 H2. unfold entries. rewrite !length_combine. lia. Qed.

Lemma entries_onsets fl cd cs :
  length fl = length cd -> length cs = length cd ->
  map (fun e => fst (fst e)) (entries fl cd cs) = fl.
Proof.
  intros H1 H2. unfold entries. rewrite <- (map_map fst fst).
  rewrite map_fst_combine by (rewrite length_combine; lia).
  now apply map_fst_combine.
Qed.

Lemma entries_durations fl cd cs :
  length fl = length cd -> length cs = length cd ->
  map (fun e => snd (fst e)) (entries fl cd cs) = cd.
Proof.
  intros H1 H2. unfold entries. rewrite <- (map_map fst snd).
  rewrite map_fst_combine by (rewrite length_combine; lia).
  now apply map_snd_combine.
Qed.

Lemma entries_labels fl cd cs :
  length fl = length cd -> length cs = length cd ->
  map snd (entries fl cd cs) = cs.
Proof.
  intros H1 H2. unfold entries.
  apply map_snd_combine. rewrite length_combine. lia.
Qed.

Lemma entries_app fl cd cs fl' cd' cs' :
  length fl = length cd -> length cs = length cd ->
  entries (fl ++ fl') (cd ++ cd') (cs ++ cs') =
  entries fl cd cs ++ entries fl' cd' cs'.
Proof.
  intros H1 H2. unfold entries. rewrite (combine_append fl fl') by exact H1.
  apply combine_append. rewrite length_combine. lia.
Qed.

Lemma entries_take fl cd cs order :
  length fl = length cd -> length cs = length cd ->
  entries (map (fun i => nth i fl nan) order)
          (map (fun i => nth i cd nan) order)
          (map (fun i => nth i cs EmptyString) order) =
  map (fun i => nth i (entries fl cd cs) (nan, nan, EmptyString)) order.
Proof.
  intros H1 H2. unfold entries. rewrite !combine_map_both.
  apply map_ext. intros i.
  rewrite combine_nth by (rewrite length_combine; lia).
  now rewrite combine_nth by exact H1.
Qed.

Lemma StronglySorted_impl {A : Type} (R R' : A -> A -> Prop) l :
  (forall x y, R x y -> R' x y) -> StronglySorted R l -> StronglySorted R' l.
Proof.
  intros H. induction 1 as [|x l S IH F]; constructor; [exact IH|].
  eapply Forall_impl; [|exact F]. intros y. apply H.
Qed.

Lemma take_seq {A : Type} (l : list A) : take l (seq 0 (length l)) = Ok l.
Proof.
  destruct l as [|d l'] eqn:E; [reflexivity|]. rewrite <- E.
  rewrite (take_Ok d).
  - now rewrite map_nth_seq.
  - apply Forall_forall. intros i Hi. apply in_seq in Hi. lia.
Qed.

Lemma take0_seq {A : Type} (s : ndarray A) n :
  len s = Ok n -> take0 s (seq 0 n) = Ok s.
Proof.
  destruct s as [x|c|k ks rows]; simpl; [discriminate| |]; intros [= <-];
    now rewrite take_seq.
Qed.

Lemma map_JNumber_inj l1 l2 : map JNumber l1 = map JNumber l2 -> l1 = l2.
Proof.
  revert l2. induction l1 as [|x l1 IH]; intros [|y l2] H; simpl in H;
    try discriminate; [reflexivity|].
  injection H as -> H. f_equal. now apply IH.
Qed.

Lemma map_JString_inj l1 l2 : map JString l1 = map JString l2 -> l1 = l2.
Proof.
  revert l2. induction l1 as [|x l1 IH]; intros [|y l2] H; simpl in H;
    try discriminate; [reflexivity|].
  injection H as -> H. f_equal. now apply IH.
Qed.

Lemma positive_float sf :
  (0 <? sf)%float = true ->
  (sf =? 0)%float = false /\ (0 / sf)%float = 0%float.
Proof.
  intros H. rewrite ltb_spec in H. split.
  - rewrite eqb_spec. revert H. unfold SFltb, SFeqb.
    change (Prim2SF 0) with (S754_zero false).
    destruct (Prim2SF sf) as [[]|[]| |[] m e]; simpl; congruence.
  - apply Prim2SF_inj. rewrite div_spec. revert H. unfold SFltb, SF64div.
    change (Prim2SF 0) with (S754_zero false).
    destruct (Prim2SF sf) as [[]|[]| |[] m e]; simpl; congruence.
Qed.

Lemma add_zero_eqb x : is_nan x = false -> (x + 0 =? x)%float = true.
Proof.
  unfold is_nan. intros H. apply negb_false_iff in H. revert H.
  rewrite !eqb_spec, add_spec. unfold SF64add.
  change (Prim2SF 0) with (S754_zero false).
  destruct (Prim2SF x) as [[]|[]| |[] m e]; simpl; intros H;
    (exact H || reflexivity).
Qed.


(** ** The quicksort on a short array *)

Lemma store_middle (l1 : list nat) (x : nat) (l2 : list nat) (i : nat) :
  store (l1 ++ x :: l2) (length l1) i = l1 ++ i :: l2.
Proof. induction l1 as [|y l1 IH]; simpl; [reflexivity|]. now rewrite IH. Qed.

(** One insertion: the cell after the sorted part goes to its place in
    it.  Read from its end, the sorted part is a list into which the index
    is inserted before the first cell that is not larger. *)
Lemma move_up_insert (v : list float) (x : nat) (rl : list nat) :
  forall (y : nat) (post : list nat) (n : nat),
    length rl <= n ->
    let (t', pj) :=
      move_up v n (rev rl ++ y :: post) 0 (nth x v nan) (length rl) in
    store t' pj x =
    rev (insert_index (fun i j => negb (np_lt (nth i v nan) (nth j v nan)))
           x rl) ++ post.
Proof.
  induction rl as [|b rl IH]; intros y post n L.
  - simpl. destruct n; reflexivity.
  - destruct n as [|n]; [simpl in L; lia|].
    cbn [move_up length rev insert_index].
    replace (Nat.ltb 0 (S (length rl))) with true by reflexivity.
    replace (S (length rl) - 1) with (length rl) by lia.
    assert (C : cell v ((rev rl ++ [b]) ++ y :: post) (length rl) =
                nth b v nan).
    { unfold cell. rewrite <- app_assoc. simpl.
      rewrite <- (length_rev rl) at 1. now rewrite nth_middle. }
    rewrite C. cbn [andb].
    destruct (np_lt (nth x v nan) (nth b v nan)) eqn:E; cbn [negb].
    + assert (N : nth (length rl) ((rev rl ++ [b]) ++ y :: post) 0 = b).
      { rewrite <- app_assoc. simpl.
        rewrite <- (length_rev rl) at 1. now rewrite nth_middle. }
      rewrite N.
      assert (S : store ((rev rl ++ [b]) ++ y :: post) (S (length rl)) b =
                  rev rl ++ b :: b :: post).
      { replace (S (length rl)) with (length (rev rl ++ [b]))
          by (rewrite length_app, length_rev; simpl; lia).
        rewrite store_middle. now rewrite <- app_assoc. }
      rewrite S. specialize (IH b (b :: post) n).
      destruct (move_up v n (rev rl ++ b :: b :: post) 0 (nth x v nan)
                  (length rl)) as [t' pj].
      rewrite IH by (simpl in L; lia). simpl. now rewrite <- app_assoc.
    + replace (S (length rl)) with (length (rev rl ++ [b]))
        by (rewrite length_app, length_rev; simpl; lia).
      rewrite store_middle. simpl. now rewrite <- !app_assoc.
Qed.

Lemma insertion_steps (v : list float) (m : nat) :
  forall (k : nat) (rl : list nat), length rl = k ->
    fold_left
      (fun t pi =>
         let vi := nth pi t 0 in
         let (t', pj) := move_up v (length t) t 0 (nth vi v nan) pi in
         store t' pj vi)
      (seq k m) (rev rl ++ seq k m) =
    rev (fold_left
           (fun rl x =>
              insert_index
                (fun i j => negb (np_lt (nth i v nan) (nth j v nan))) x rl)
           (seq k m) rl).
Proof.
  induction m as [|m IH]; intros k rl L; simpl.
  - now rewrite app_nil_r.
  - assert (N : nth k (rev rl ++ k :: seq (S k) m) 0 = k).
    { rewrite <- L, <- (length_rev rl) at 1. now rewrite nth_middle. }
    rewrite N.
    pose proof (move_up_insert v k rl k (seq (S k) m)
                  (length (rev rl ++ k :: seq (S k) m))) as M.
    rewrite L in M.
    destruct (move_up v (length (rev rl ++ k :: seq (S k) m))
                (rev rl ++ k :: seq (S k) m) 0 (nth k v nan) k) as [t' pj].
    rewrite M by (rewrite length_app, length_rev; lia).
    apply IH.
    rewrite (Permutation_length (insert_index_perm _ _ _)). simpl. lia.
Qed.

(** The insertion sort on the indices in their order. *)
Lemma insertion_seq (v : list float) (n : nat) :
  insertion v (seq 0 n) 0 (n - 1) =
  rev (fold_left
         (fun rl x =>
            insert_index
              (fun i j => negb (np_lt (nth i v nan) (nth j v nan))) x rl)
         (seq 0 n) []).
Proof.
  unfold insertion. destruct n as [|n]; [reflexivity|].
  replace (S n - 1 - 0) with n by lia.
  exact (insertion_steps v n 1 [0] eq_refl).
Qed.

(** An array of at most 17 cells is not partitioned: the quicksort is the
    insertion sort. *)
Lemma quicksort_short (a : list float) :
  length a <= 17 ->
  quicksort_argsort a = insertion a (seq 0 (length a)) 0 (length a - 1).
Proof.
  intros L. unfold quicksort_argsort, aquicksort_. cbn [rounds].
  assert (D : (npy_get_msb (length a) * 2 <? 0)%Z = false).
  { apply Z.ltb_ge. unfold npy_get_msb. lia. }
  rewrite D.
  assert (P : partitions a (length (seq 0 (length a))) (seq 0 (length a))
                0 (length a - 1) (npy_get_msb (length a) * 2) [] =
              (seq 0 (length a), 0, length a - 1,
               (npy_get_msb (length a) * 2)%Z, [])).
  { destruct (length (seq 0 (length a))); [reflexivity|].
    cbn [partitions].
    replace (Nat.ltb SMALL_QUICKSORT (length a - 1 - 0)) with false;
      [reflexivity|].
    symmetry. apply Nat.ltb_ge. unfold SMALL_QUICKSORT. lia. }
  rewrite P. reflexivity.
Qed.

Lemma fold_left_insert_perm (before : nat -> nat -> bool) (l rl : list nat) :
  Permutation (fold_left (fun rl x => insert_index before x rl) l rl)
              (l ++ rl).
Proof.
  revert rl. induction l as [|x l IH]; intros rl; simpl; [reflexivity|].
  rewrite IH. rewrite (insert_index_perm before x rl).
  symmetry. apply Permutation_middle.
Qed.

Lemma fold_left_insert_sorted (before : nat -> nat -> bool)
    (R : nat -> nat -> Prop) :
  (forall i j k, R i j -> R j k -> R i k) ->
  (forall i j, j < i -> before i j = true -> R i j) ->
  (forall i j, j < i -> before i j = false -> R j i) ->
  forall m k rl,
    Forall (fun j => j < k) rl -> StronglySorted R rl ->
    StronglySorted R
      (fold_left (fun rl x => insert_index before x rl) (seq k m) rl).
Proof.
  intros Rt Bt Bf. induction m as [|m IH]; intros k rl B S; simpl;
    [exact S|].
  apply IH.
  - apply (Permutation_Forall (Permutation_sym (insert_index_perm _ _ _))).
    constructor; [lia|].
    eapply Forall_impl; [|exact B]. simpl. intros; lia.
  - now apply (insert_index_sorted before R (fun i j => j < i) Rt Bt Bf).
Qed.

(** Up to 17 cells numpy's quicksort meets the contract of [argsort] and
    keeps equal cells in their order. *)
Lemma quicksort_short_stable (a : list float) :
  length a <= 17 ->
  is_argsort a (quicksort_argsort a) /\ is_stable a (quicksort_argsort a).
Proof.
  intros L. rewrite (quicksort_short a L), insertion_seq.
  set (before := fun i j => negb (np_lt (nth i a nan) (nth j a nan))).
  set (rl := fold_left (fun rl x => insert_index before x rl)
               (seq 0 (length a)) []).
  pose (key i := nth i a nan).
  pose (R i j := np_lt (key i) (key j) = true \/
                 (np_lt (key j) (key i) = false /\ i < j)).
  assert (P : Permutation rl (seq 0 (length a))).
  { unfold rl. rewrite fold_left_insert_perm. now rewrite app_nil_r. }
  assert (S : StronglySorted (fun i j => R j i) rl).
  { apply fold_left_insert_sorted; [| | |constructor|constructor].
    - intros i j k [H1|[H1 L1]] [H2|[H2 L2]].
      + left. now apply (np_lt_trans _ (key j)).
      + destruct (np_lt (key k) (key i)) eqn:E; [now left|exfalso].
        pose proof (np_lt_negtrans _ _ _ E H2). congruence.
      + destruct (np_lt (key k) (key i)) eqn:E; [now left|exfalso].
        pose proof (np_lt_negtrans _ _ _ H1 E). congruence.
      + right. split; [now apply (np_lt_negtrans _ (key j))|lia].
    - intros i j Lt H. apply negb_true_iff in H. right. now split.
    - intros i j Lt H. apply negb_false_iff in H. now left. }
  assert (N : forall p q, p < q < length rl ->
                R (nth p (rev rl) 0) (nth q (rev rl) 0)).
  { intros p q Hpq. rewrite !rev_nth by lia.
    apply (StronglySorted_nth _ 0 rl S). lia. }
  split; [split|].
  - now rewrite <- Permutation_rev.
  - intros p q Hpq. rewrite length_map, length_rev in Hpq.
    rewrite (nth_map_in _ (rev rl) 0 nan p), (nth_map_in _ (rev rl) 0 nan q)
      by (rewrite length_rev; lia).
    destruct (N p q Hpq) as [H|[H _]]; [now apply np_lt_asym|exact H].
  - intros p q Hpq E. rewrite length_rev in Hpq.
    destruct (N p q Hpq) as [H|[_ H]]; [|exact H].
    apply np_lt_false_of_eqb in E. unfold key in H. congruence.
Qed.

(** ** Indices read off distinct cells *)

Lemma take_inj {A : Type} (l : list A) (o1 o2 : list nat) (r : list A) :
  NoDup l -> take l o1 = Ok r -> take l o2 = Ok r -> o1 = o2.
Proof.
  intros N. revert o2 r. induction o1 as [|i o1 IH]; intros o2 r H1 H2.
  - simpl in H1. injection H1 as <-. destruct o2 as [|j o2]; [reflexivity|].
    simpl in H2. destruct (nth_error l j); [|discriminate].
    destruct (take l o2); simpl in H2; discriminate.
  - simpl in H1. destruct (nth_error l i) as [x|] eqn:Ei; [|discriminate].
    destruct (take l o1) as [xs|] eqn:T1; simpl in H1; [|discriminate].
    injection H1 as <-.
    destruct o2 as [|j o2]; [discriminate|]. simpl in H2.
    destruct (nth_error l j) as [y|] eqn:Ej; [|discriminate].
    destruct (take l o2) as [ys|] eqn:T2; simpl in H2; [|discriminate].
    injection H2 as -> ->. f_equal.
    + apply (proj1 (NoDup_nth_error l) N);
        [apply nth_error_Some|]; congruence.
    + now apply (IH o2 xs).
Qed.

Lemma ascending_repeat (x : float) (n : nat) : ascending (repeat x n).
Proof.
  intros i j H. rewrite repeat_length in H.
  rewrite !nth_repeat_lt by lia.
  destruct (np_lt x x) eqn:E; [|reflexivity].
  now rewrite (np_lt_asym _ _ E) in E.
Qed.

(** ** The shift is the sum of the counts before the last, over [sfreq] *)

Lemma sum_fold_right (l : list Z) : sum l = fold_right Z.add 0%Z l.
Proof.
  unfold sum. apply fold_symmetric; intros; lia.
Qed.

Lemma but_last_firstn {A : Type} (l : list A) :
  but_last l = firstn (length l - 1) l.
Proof.
  unfold but_last. destruct l as [|x l]; [reflexivity|].
  rewrite removelast_firstn_len. f_equal. simpl. lia.
Qed.

Lemma onset_shift_Ok (last_samps : list Z) (sfreq : float) :
  let total := fold_right Z.add 0%Z (firstn (length last_samps - 1) last_samps) in
  is_infinity (nearest_float total) = false ->
  (sfreq =? 0)%float = false ->
  onset_shift last_samps sfreq = Ok (nearest_float total / sfreq)%float.
Proof.
  intros total Hi Hz. unfold onset_shift, truediv, to_float, int_to_float.
  rewrite sum_fold_right, but_last_firstn. fold total.
  fold (nearest_float total). rewrite Hi. simpl. now rewrite Hz.
Qed.



(** ** What [np.r_] raises *)






(** ** Construction and merge, step by step *)

Section Properties.

Variable datetime : Type.
Variable mktime : datetime -> result float.
Variable argsort : list float -> list nat.

Variable float_repr : float -> string.
Variable float_parse : string -> option float.

Hypothesis argsort_spec : forall a, is_argsort a (argsort a).

Notation init := (__init__ datetime mktime argsort).
Notation combine := (_combine_annotations datetime mktime argsort).
Notation normalize := (normalize_orig_time datetime mktime).
Notation sort_indices := (ndarray_argsort argsort).
Notation stored := (stored_orig_time datetime).
Notation serialize := (_serialize float_repr).
Notation readable := (readable float_repr float_parse).

Lemma init_inv o d s ot r :
  init o d s ot = Ok r ->
  exists t co cd order,
    normalize ot = Ok t /\
    o = Array1 co /\ d = Array1 cd /\
    length co = length cd /\ len s = Ok (length cd) /\
    sort_indices co = Ok order /\
    take co order = Ok (onset r) /\
    take cd order = Ok (duration r) /\
    take0 s order = Ok (description r) /\
    orig_time r = t.
Proof.
  unfold __init__. intros H.
  destruct (normalize ot) as [t|] eqn:Et; simpl in H; [|discriminate].
  destruct o as [|co|]; try discriminate.
  destruct d as [|cd|]; try discriminate.
  destruct (Nat.eqb (length co) (length cd)) eqn:E1; simpl in H; [|discriminate].
  destruct (len s) as [n|] eqn:En; simpl in H; [|discriminate].
  destruct (Nat.eqb (length cd) n) eqn:E2; simpl in H; [|discriminate].
  destruct (sort_indices co) as [order|] eqn:Eo; simpl in H; [|discriminate].
  destruct (take co order) as [o'|] eqn:T1; simpl in H; [|discriminate].
  destruct (take cd order) as [d'|] eqn:T2; simpl in H; [|discriminate].
  destruct (take0 s order) as [s'|] eqn:T3; simpl in H; [|discriminate].
  injection H as <-. apply Nat.eqb_eq in E1, E2. subst n.
  exists t, co, cd, order. simpl. repeat split; auto.
Qed.

Lemma ndarray_argsort_perm co order :
  sort_indices co = Ok order ->
  Permutation order (seq 0 (length co)).
Proof.
  unfold ndarray_argsort. destruct (as_floats co) as [fl|] eqn:E.
  - intros [= <-]. apply as_floats_inv in E. subst co.
    rewrite length_map. apply argsort_spec.
  - destruct (Nat.leb (length co) 1); [|discriminate].
    intros [= <-]. apply Permutation_refl.
Qed.

Lemma take0_len {A : Type} (s s' : ndarray A) order :
  take0 s order = Ok s' -> len s' = Ok (length order) /\ ndim s' = ndim s.
Proof.
  destruct s as [x|c|k ks rows]; simpl; [discriminate| |].
  - destruct (take c order) as [c'|] eqn:T; simpl; [|discriminate].
    intros [= <-]. simpl. now rewrite (take_length _ _ _ T).
  - destruct (take rows order) as [c'|] eqn:T; simpl; [|discriminate].
    intros [= <-]. simpl. now rewrite (take_length _ _ _ T).
Qed.

(** What [_combine_annotations] returns as a set was built by
    [__init__]: the two branches that would hand back an argument are
    behind the test [not all(annotations)], which is true already when
    one argument is [None]. *)
Lemma combine_inv annotations last_samps sfreq r :
  combine annotations last_samps sfreq = Ok (Some r) ->
  exists a b o d s,
    annotations = (Some a, Some b) /\
    init (Array1 o) (Array1 d) s (stored (orig_time a)) = Ok r.
Proof.
  unfold _combine_annotations.
  destruct annotations as [[a|] [b|]]; simpl; try discriminate.
  intros H.
  match type of H with bind ?m _ = _ => destruct m as [item|]; simpl in H end;
    [|discriminate].
  destruct (np_r_ (description a) (description b)) as [s|]; simpl in H;
    [|discriminate].
  match type of H with bind ?m _ = _ => destruct m as [r'|] eqn:E; simpl in H end;
    [|discriminate].
  injection H as <-. eauto 10.
Qed.

Lemma take0_Ok {A : Type} (s : ndarray A) n order :
  len s = Ok n -> Forall (fun i => i < n) order ->
  exists s', take0 s order = Ok s'.
Proof.
  destruct s as [x|c|k ks rows]; simpl; [discriminate| |]; intros [= <-] F.
  - destruct c as [|x c]; [destruct order; [|inversion F; simpl in *; lia]|].
    + eexists. reflexivity.
    + rewrite (take_Ok x) by exact F. eexists. reflexivity.
  - destruct rows as [|x c]; [destruct order; [|inversion F; simpl in *; lia]|].
    + eexists. reflexivity.
    + rewrite (take_Ok x) by exact F. eexists. reflexivity.
Qed.

(** Construction succeeds on one-dimensional onsets and durations of the
    length of the description. *)
Lemma init_Ok fl cd s ot t :
  normalize ot = Ok t -> length fl = length cd -> len s = Ok (length cd) ->
  exists r, init (Array1 (map VFloat fl)) (Array1 cd) s ot = Ok r.
Proof.
  intros Hn Hl Hs. unfold __init__. rewrite Hn. simpl.
  rewrite length_map, Hl, Nat.eqb_refl, Hs. simpl. rewrite Nat.eqb_refl. simpl.
  unfold ndarray_argsort. rewrite as_floats_map. simpl.
  pose proof (Permutation_seq_bound _ _ (proj1 (argsort_spec fl))) as B.
  rewrite (take_Ok (VFloat nan)) by now rewrite length_map. simpl.
  rewrite (take_Ok nan) by now rewrite <- Hl. simpl.
  destruct (take0_Ok s (length cd) (argsort fl) Hs) as [s' ->];
    [now rewrite <- Hl|].
  simpl. eexists. reflexivity.
Qed.

Lemma normalize_stored t : normalize (stored t) = Ok t.
Proof. now destruct t. Qed.

Lemma mapM_value_add shift fl :
  mapM (value_add shift) (map VFloat fl) =
  Ok (map VFloat (map (fun x => (x + shift)%float) fl)).
Proof. induction fl as [|x fl IH]; simpl; [reflexivity|]. now rewrite IH. Qed.

Lemma argsort_two x y :
  np_lt x y = true -> argsort [x; y] = [0; 1].
Proof.
  intros L. destruct (argsort_spec [x; y]) as [P A]. simpl in P.
  apply Permutation_sym, Permutation_length_2_inv in P.
  destruct P as [P|P]; [exact P|exfalso].
  rewrite P in A. specialize (A 0 1). simpl in A.
  assert (E : np_lt x y = false) by (apply A; lia). congruence.
Qed.

(** C1. [combine(A, absent)] should return A and [combine(absent, B)]
    should return B.  The code returns [None] in both cases: its first
    test, [not all(annotations)], holds as soon as one of the two is
    [None], and the branches that return the other argument are never
    reached.  Only [combine(absent, absent)] is as stated. *)
Theorem combine_with_absent_is_None (a : Annotations) last_samps sfreq :
  combine (Some a, None) last_samps sfreq = Ok None /\
  combine (None, Some a) last_samps sfreq = Ok None /\
  combine (None, None) last_samps sfreq = Ok None.
Proof. repeat split. Qed.

(** When the second set carries an [orig_time], the name [onset] is bound
    to the set itself, not to its onsets: whatever the merge returns holds
    that one object as its only onset cell, and the first set was empty. *)
Lemma combine_absolute_inv (a b : Annotations) t last_samps sfreq r :
  orig_time b = Some t ->
  combine (Some a, Some b) last_samps sfreq = Ok (Some r) ->
  onset a = [] /\ onset r = [VObject b].
Proof.
  intros Hb H. unfold _combine_annotations in H. simpl in H.
  rewrite Hb in H. simpl in H.
  destruct (np_r_ (description a) (description b)) as [s|]; simpl in H;
    [|discriminate].
  match type of H with bind ?m _ = _ => destruct m as [r'|] eqn:E; simpl in H end;
    [|discriminate].
  injection H as <-.
  apply init_inv in E.
  destruct E as (t' & co & cd & order & _ & [= <-] & _ & _ & _ & Ho & To & _).
  unfold ndarray_argsort in Ho.
  destruct (as_floats (onset a ++ [VObject b])) as [fl|] eqn:Ef.
  - apply as_floats_inv in Ef.
    assert (I : In (VObject b) (map VFloat fl))
      by (rewrite <- Ef; apply in_or_app; right; now left).
    apply in_map_iff in I. destruct I as (x & Hx & _). discriminate.
  - rewrite length_app in Ho. simpl in Ho.
    destruct (onset a) as [|v l]; simpl in *.
    + injection Ho as <-. simpl in To. injection To as <-. now split.
    + rewrite Nat.add_comm in Ho. simpl in Ho. discriminate.
Qed.

(** C2. With [orig_time] set on the second set its onsets should pass
    into the merge unshifted.  They do not: merging
    [Annotations([1.0], [0.5], ['x'])] with
    [Annotations([0.2, 0.3], [0.1, 0.1], ['y', 'z'], orig_time=5.0)] raises
    ValueError, since the onset array is two cells long, the second
    one the set itself, against three durations. *)
Theorem combine_absolute_fails last_samps sfreq :
  combine (Some sample_a, Some sample_absolute) last_samps sfreq =
  Raise (ValueError "Onset, duration and description must be equal in sizes.").
Proof. reflexivity. Qed.

Lemma init_numeric fl d s ot r :
  init (Array1 (map VFloat fl)) d s ot = Ok r ->
  exists cd,
    d = Array1 cd /\ length fl = length cd /\
    onset r = map VFloat (map (fun i => nth i fl nan) (argsort fl)) /\
    duration r = map (fun i => nth i cd nan) (argsort fl) /\
    take0 s (argsort fl) = Ok (description r) /\
    normalize ot = Ok (orig_time r).
Proof.
  intros H. apply init_inv in H.
  destruct H as (t & co & cd & order & Hn & [= <-] & -> & Hl & _ & Ho & To & Td & Ts & Ht).
  unfold ndarray_argsort in Ho. rewrite as_floats_map in Ho.
  injection Ho as <-. rewrite length_map in Hl.
  apply (take_inv (VFloat nan)) in To. destruct To as [To _].
  apply (take_inv nan) in Td. destruct Td as [Td _].
  exists cd. repeat split; auto; [|congruence].
  rewrite To, map_map. apply map_ext_in. intros i Hi.
  apply (Permutation_in _ (proj1 (argsort_spec fl))), in_seq in Hi.
  now rewrite (nth_map_in VFloat fl nan) by lia.
Qed.

Lemma init_equal_lengths o d s ot r :
  init o d s ot = Ok r -> equal_lengths r.
Proof.
  intros H. apply init_inv in H.
  destruct H as (t & co & cd & order & _ & _ & _ & Hl & _ & Ho & To & Td & Ts & _).
  apply take_length in To, Td. apply take0_len in Ts. destruct Ts as [Ts _].
  unfold equal_lengths. rewrite To, Td, Ts. now split.
Qed.

Lemma init_nondecreasing o d s ot r :
  init o d s ot = Ok r -> nondecreasing (onset r).
Proof.
  intros H. apply init_inv in H.
  destruct H as (t & co & cd & order & _ & _ & _ & _ & _ & Ho & To & _).
  unfold ndarray_argsort in Ho. destruct (as_floats co) as [fl|] eqn:Ef.
  - apply as_floats_inv in Ef. subst co. injection Ho as <-.
    destruct (argsort_spec fl) as [P A].
    apply (take_inv (VFloat nan)) in To. destruct To as [To _].
    intros i j x y Hij Hx Hy.
    assert (Lj : j < length (argsort fl)).
    { assert (Lr : j < length (onset r)) by (apply nth_error_Some; congruence).
      now rewrite To, length_map in Lr. }
    specialize (A i j). rewrite length_map in A. specialize (A (conj Hij Lj)).
    rewrite (nth_map_in _ _ 0 nan i), (nth_map_in _ _ 0 nan j) in A by lia.
    apply (nth_error_nth _ _ (VFloat nan)) in Hx, Hy.
    rewrite To in Hx, Hy.
    rewrite (nth_map_in _ _ 0 _ i) in Hx by lia.
    rewrite (nth_map_in _ _ 0 _ j) in Hy by lia.
    assert (B : forall k, In k (argsort fl) -> k < length fl).
    { intros k Hk. apply (Permutation_in _ P), in_seq in Hk. lia. }
    rewrite (nth_map_in VFloat fl nan) in Hx by (apply B, nth_In; lia).
    rewrite (nth_map_in VFloat fl nan) in Hy by (apply B, nth_In; lia).
    subst x y. simpl. apply ltb_of_np_lt_false in A. congruence.
  - destruct (Nat.leb (length co) 1) eqn:L; [|discriminate].
    injection Ho as <-. apply Nat.leb_le in L.
    apply take_length in To. rewrite length_seq in To.
    intros i j x y Hij _ Hy.
    assert (Lr : j < length (onset r)) by (apply nth_error_Some; congruence).
    lia.
Qed.

Lemma nondecreasing_leb fl :
  nondecreasing (map VFloat fl) ->
  Forall (fun x => is_nan x = false) fl -> leb_sorted fl.
Proof.
  intros N F i j Hij. rewrite Forall_forall in F.
  apply leb_of_not_ltb; try (apply F, nth_In; lia).
  specialize (N i j (VFloat (nth i fl nan)) (VFloat (nth j fl nan))).
  destruct (nth j fl nan <? nth i fl nan)%float eqn:E; [exfalso|reflexivity].
  apply N; simpl; try lia; try congruence.
  - rewrite nth_error_map, (nth_error_nth' fl nan) by lia. reflexivity.
  - rewrite nth_error_map, (nth_error_nth' fl nan) by lia. reflexivity.
Qed.

Lemma init_sorted_onsets o d s ot r :
  init o d s ot = Ok r -> sorted_onsets r.
Proof.
  intros H. apply init_nondecreasing in H. split; [exact H|].
  intros fl E F. rewrite E in H. now apply nondecreasing_leb.
Qed.

(** C6. The constructed set has onset, duration and description of one
    length, and so has every set that [_combine_annotations] returns. *)
Theorem lengths_equal :
  (forall o d s ot r, init o d s ot = Ok r -> equal_lengths r) /\
  (forall annotations last_samps sfreq r,
      combine annotations last_samps sfreq = Ok (Some r) ->
      equal_lengths r).
Proof.
  split.
  - exact init_equal_lengths.
  - intros annotations last_samps sfreq r H.
    apply combine_inv in H. destruct H as (a & b & o & d & s & _ & H).
    now apply init_equal_lengths in H.
Qed.

(** C7. The onsets of the constructed set are in non-decreasing order,
    and so are those of every set that [_combine_annotations] returns. *)
Theorem onsets_nondecreasing :
  (forall o d s ot r, init o d s ot = Ok r -> sorted_onsets r) /\
  (forall annotations last_samps sfreq r,
      combine annotations last_samps sfreq = Ok (Some r) ->
      sorted_onsets r).
Proof.
  split.
  - exact init_sorted_onsets.
  - intros annotations last_samps sfreq r H.
    apply combine_inv in H. destruct H as (a & b & o & d & s & _ & H).
    now apply init_sorted_onsets in H.
Qed.

Lemma init_in_lockstep fl cd s ot r :
  init (Array1 (map VFloat fl)) (Array1 cd) s ot = Ok r ->
  in_lockstep (argsort fl) fl cd s r.
Proof.
  intros H. apply init_inv in H.
  destruct H as (t & co & cd' & order & _ & [= <-] & [= <-] & _ & _ & Ho & To & Td & Ts & _).
  unfold ndarray_argsort in Ho. rewrite as_floats_map in Ho.
  injection Ho as <-. split; [apply argsort_spec|]. now repeat split.
Qed.

(** C4. With no [orig_time] on the second set, the merge is the ordinary
    construction from the onsets of the first set followed by those of
    the second, each moved forward by the sum of [last_samps] without its
    last entry, divided by [sfreq], and from the durations and
    descriptions in the same order; the result is sorted again and has
    the [orig_time] of the first set.  The sum is to be within the range
    of a float and [sfreq] is not to be zero.  For
    [a = ([1.0], [0.5], ['x'])], [b = ([0.2], [0.1], ['y'])],
    [last_samps = [1000, 500]] and [sfreq = 500.0] the onsets are
    [[1.0, 2.2]] and the descriptions [['x', 'y']]. *)
Theorem combine_relative :
  (forall a b fa sa fb sb last_samps sfreq,
      is_plain a fa sa -> is_plain b fb sb -> orig_time b = None ->
      let total :=
        fold_right Z.add 0%Z (firstn (length last_samps - 1) last_samps) in
      is_infinity (nearest_float total) = false ->
      (sfreq =? 0)%float = false ->
      let shift := (nearest_float total / sfreq)%float in
      let onsets := fa ++ map (fun x => (x + shift)%float) fb in
      let durations := duration a ++ duration b in
      let descriptions := Array1 (sa ++ sb) in
      exists r,
        combine (Some a, Some b) last_samps sfreq = Ok (Some r) /\
        init (Array1 (map VFloat onsets)) (Array1 durations) descriptions
             (stored (orig_time a)) = Ok r /\
        sorts_in_lockstep onsets durations descriptions r /\
        orig_time r = orig_time a) /\
  combine (Some sample_a, Some sample_b) [1000; 500]%Z 500%float =
  Ok (Some (mkAnnotations [VFloat 1.0; VFloat 2.2] [0.5; 0.1]%float
                          (Array1 ["x"; "y"]) None)).
Proof.
  split.
  - intros a b fa sa fb sb last_samps sfreq
      (Oa & Da & La & Sa) (Ob & Db & Lb & Sb) Tb total Hi Hz
      shift onsets durations descriptions.
    pose proof (onset_shift_Ok last_samps sfreq Hi Hz) as Hs.
    fold total in Hs. fold shift in Hs.
    destruct (init_Ok onsets durations descriptions (stored (orig_time a))
                (orig_time a)) as [r Hr].
    + apply normalize_stored.
    + unfold onsets, durations. rewrite !length_app, length_map. lia.
    + unfold descriptions, durations. simpl. rewrite !length_app. congruence.
    + exists r. split; [|split; [exact Hr|split]].
      * unfold _combine_annotations. simpl. rewrite Tb, Hs. simpl.
        rewrite Ob, mapM_value_add. simpl. rewrite Da, Db. simpl.
        rewrite Oa, <- map_app. fold onsets durations descriptions.
        now rewrite Hr.
      * exists (argsort onsets). split; [|apply argsort_spec].
        now apply init_in_lockstep in Hr.
      * apply init_numeric in Hr.
        destruct Hr as (cd & _ & _ & _ & _ & _ & Hn).
        rewrite normalize_stored in Hn. congruence.
  - unfold _combine_annotations, __init__, ndarray_argsort. simpl.
    rewrite argsort_two by reflexivity. reflexivity.
Qed.

Lemma take_Raise {A : Type} (l : list A) idx e :
  take l idx = Raise e -> e = IndexError.
Proof.
  induction idx as [|i idx IH]; simpl; [discriminate|].
  destruct (nth_error l i); [|now intros [= <-]].
  destruct (take l idx); simpl; [discriminate|].
  intros [= <-]. now apply IH.
Qed.

Lemma take0_Raise {A : Type} (s : ndarray A) idx e :
  take0 s idx = Raise e -> e = IndexError.
Proof.
  destruct s as [x|c|k ks rows]; simpl.
  - now intros [= <-].
  - destruct (take c idx) eqn:T; simpl; [discriminate|].
    intros [= <-]. now apply take_Raise in T.
  - destruct (take rows idx) eqn:T; simpl; [discriminate|].
    intros [= <-]. now apply take_Raise in T.
Qed.

Lemma init_ValueError_rejected o d s ot msg :
  init o d s ot = Raise (ValueError msg) -> ndim s <> 0 ->
  (exists t, normalize ot = Ok t) -> rejected o d s.
Proof.
  intros H Hs [t Hn]. unfold __init__ in H. rewrite Hn in H. simpl in H.
  destruct o as [x|co|k ks rows]; [left; simpl; lia| |left; simpl; lia].
  destruct d as [x|cd|k ks rows]; [right; left; simpl; lia| |right; left; simpl; lia].
  right. right. intros (n & [= <-] & [= E] & Ls).
  assert (E1 : Nat.eqb (length co) (length cd) = true)
    by (apply Nat.eqb_eq; congruence).
  assert (E2 : Nat.eqb (length cd) (length co) = true)
    by (apply Nat.eqb_eq; congruence).
  rewrite E1 in H. simpl in H. rewrite Ls in H. simpl in H.
  rewrite E2 in H. simpl in H.
  destruct (sort_indices co) as [order|e] eqn:Eo; simpl in H.
  - destruct (take co order) eqn:T1; simpl in H;
      [|apply take_Raise in T1; congruence].
    destruct (take cd order) eqn:T2; simpl in H;
      [|apply take_Raise in T2; congruence].
    destruct (take0 s order) eqn:T3; simpl in H;
      [discriminate|apply take0_Raise in T3; congruence].
  - unfold ndarray_argsort in Eo. destruct (as_floats co); [discriminate|].
    destruct (Nat.leb (length co) 1); [discriminate|]. congruence.
Qed.





(** C8. What construction stores as [orig_time]: nothing for [None]; the
    float of a single number; for a pair (seconds, microseconds) the sum
    of the seconds and of the microseconds divided by 1000000.  On
    one-dimensional arrays of one length construction returns in each of
    these cases, as long as the integers involved are within the range of
    a float. *)
Theorem orig_time_normalized :
  (forall o d s ot r,
      init o d s ot = Ok r ->
      match ot with
      | OTNone => orig_time r = None
      | OTScalar x => exists f, to_float x = Ok f /\ orig_time r = Some f
      | OTSequence (sec :: usec :: _) =>
          exists fs fus,
            to_float sec = Ok fs /\ to_float usec = Ok fus /\
            orig_time r = Some (fs + fus / 1000000)%float
      | _ => True
      end) /\
  (forall fl cd cs,
      length fl = length cd -> length cs = length cd ->
      let built ot t :=
        exists r,
          init (Array1 (map VFloat fl)) (Array1 cd) (Array1 cs) ot = Ok r /\
          orig_time r = t in
      built OTNone None /\
      (forall x f, to_float x = Ok f -> built (OTScalar x) (Some f)) /\
      (forall sec usec rest fs fus,
          to_float sec = Ok fs -> to_float usec = Ok fus ->
          built (OTSequence (sec :: usec :: rest))
                (Some (fs + fus / 1000000)%float))).
Proof.
  split.
  - intros o d s ot r H. apply init_inv in H.
    destruct H as (t & co & cd & order & Hn & _ & _ & _ & _ & _ & _ & _ & _ & <-).
    destruct ot as [|dt|[|sec [|usec items]]|x]; simpl in *; auto.
    + now injection Hn as <-.
    + unfold truediv, add_float in Hn.
      destruct (to_float usec) as [fus|]; simpl in Hn; [|discriminate].
      destruct (to_float sec) as [fs|]; simpl in Hn; [|discriminate].
      injection Hn as <-. eauto.
    + destruct (to_float x) as [f|]; simpl in Hn; [|discriminate].
      injection Hn as <-. eauto.
  - intros fl cd cs Hl Hs built.
    assert (B : forall ot t, normalize ot = Ok t -> built ot t).
    { intros ot t Hn.
      destruct (init_Ok fl cd (Array1 cs) ot t Hn Hl) as [r Hr];
        [simpl; congruence|].
      exists r. split; [exact Hr|].
      apply init_numeric in Hr. destruct Hr as (cd' & _ & _ & _ & _ & _ & Hn').
      congruence. }
    split; [|split].
    + now apply B.
    + intros x f Hx. apply B. simpl. now rewrite Hx.
    + intros sec usec rest fs fus H1 H2. apply B. simpl.
      unfold truediv, add_float. now rewrite H2, H1.
Qed.

(** C10. The dimensions of the description are not looked at: with
    one-dimensional onsets and durations of one length, a description of
    two or more dimensions and that many rows is accepted and keeps its
    dimensions, while an onset or a duration of two or more dimensions
    is refused. *)
Theorem description_ndim_unchecked fl cd k ks rows ot t :
  normalize ot = Ok t ->
  length fl = length cd -> length rows = length cd ->
  (exists r,
      init (Array1 (map VFloat fl)) (Array1 cd) (ArrayN k ks rows) ot = Ok r /\
      ndim (description r) = ndim (ArrayN k ks rows) /\
      len (description r) = Ok (length rows)) /\
  (forall o d s,
      exists msg, init (ArrayN k ks o) d s ot = Raise (ValueError msg)) /\
  (forall d s,
      exists msg,
        init (Array1 (map VFloat fl)) (ArrayN k ks d) s ot =
        Raise (ValueError msg)).
Proof.
  intros Hn Hl Hr. split; [|split].
  - destruct (init_Ok fl cd (ArrayN k ks rows) ot t Hn Hl) as [r H];
      [simpl; congruence|].
    exists r. split; [exact H|].
    apply init_inv in H.
    destruct H as (t' & co & cd' & order & _ & [= <-] & [= <-] & _ & _ & Ho & _ & _ & Ts & _).
    apply ndarray_argsort_perm, Permutation_seq_length in Ho.
    apply take0_len in Ts. destruct Ts as [-> ->].
    rewrite Ho, length_map. split; [reflexivity|congruence].
  - intros o d s. unfold __init__. rewrite Hn. simpl. eexists. reflexivity.
  - intros d s. unfold __init__. rewrite Hn. simpl. eexists. reflexivity.
Qed.

Lemma mapM_cell_to_json fl :
  mapM cell_to_json (map VFloat fl) = Ok (map JNumber fl).
Proof. induction fl as [|x fl IH]; simpl; [reflexivity|]. now rewrite IH. Qed.

Lemma faithful_numbers fl :
  (forall x, In x fl -> readable x) ->
  fold_right (fun v acc => faithful float_repr float_parse v /\ acc) True
             (map JNumber fl).
Proof.
  induction fl as [|x fl IH]; simpl; intros H; [exact I|].
  split; [apply H; now left|]. apply IH. intros y Hy. apply H. now right.
Qed.

Lemma faithful_strings (l : list json) :
  Forall (faithful float_repr float_parse) l ->
  fold_right (fun v acc => faithful float_repr float_parse v /\ acc) True l.
Proof. induction 1; simpl; auto. Qed.

Lemma faithful_nest shape cells :
  faithful float_repr float_parse (nest shape cells).
Proof.
  revert cells. induction shape as [|n shape IH]; intros cells; simpl;
    [exact I|].
  apply faithful_strings, Forall_forall. intros v Hv.
  apply in_map_iff in Hv. destruct Hv as (i & <- & _). apply IH.
Qed.

Lemma faithful_tolist s : faithful float_repr float_parse (tolist s).
Proof.
  destruct s as [x|cells|d ds rows]; simpl; [exact I| |].
  - apply faithful_strings, Forall_forall. intros v Hv.
    apply in_map_iff in Hv. now destruct Hv as (i & <- & _).
  - apply faithful_strings, Forall_forall. intros v Hv.
    apply in_map_iff in Hv. destruct Hv as (i & <- & _).
    apply (faithful_nest (d :: ds)).
Qed.

(** C9. A constructed set is serialized to a text that [json.loads] reads
    back as an object of four members: under [onset] and [duration] the
    lists of the stored numbers, under [description] the list of the
    stored labels, under [orig_time] the stored number or [null]; the
    numbers are those that [repr] writes as a number and [float] reads
    back. *)
Theorem serialize_roundtrip fl d s ot r :
  init (Array1 (map VFloat fl)) d s ot = Ok r ->
  (forall x, In x fl \/ In x (duration r) \/ orig_time r = Some x ->
             readable x) ->
  exists text onsets,
    onset r = map VFloat onsets /\
    serialize r = Ok text /\
    loads float_parse text = Some (document onsets r) /\
    (forall labels, description r = Array1 labels ->
       tolist (description r) = JArray (map JString labels)).
Proof.
  intros H R. apply init_numeric in H.
  destruct H as (cd & _ & _ & Ho & _ & _ & _).
  eexists _, _. split; [exact Ho|].
  unfold _serialize. rewrite Ho, mapM_cell_to_json. simpl.
  split; [reflexivity|]. split; [|now intros labels ->].
  apply (loads_dumps float_repr float_parse (document _ r)).
  simpl. repeat split.
  - apply faithful_numbers. intros x Hx. apply R. left.
    apply in_map_iff in Hx. destruct Hx as (i & <- & Hi).
    apply nth_In.
    apply (Permutation_in _ (proj1 (argsort_spec fl))), in_seq in Hi. lia.
  - apply faithful_numbers. intros x Hx. apply R. now right; left.
  - apply faithful_tolist.
  - destruct (orig_time r) as [t|] eqn:Et; simpl; [|exact I].
    apply R. now right; right.
Qed.

(** ** Entries of a constructed set *)

(** What construction stores for float onsets and labels in one
    dimension: the entries at the indices of the sort. *)
Lemma init_plain fl cd cs ot r :
  init (Array1 (map VFloat fl)) (Array1 cd) (Array1 cs) ot = Ok r ->
  length fl = length cd /\ length cs = length cd /\
  onset r = map VFloat (map (fun i => nth i fl nan) (argsort fl)) /\
  duration r = map (fun i => nth i cd nan) (argsort fl) /\
  description r = Array1 (map (fun i => nth i cs EmptyString) (argsort fl)) /\
  normalize ot = Ok (orig_time r).
Proof.
  intros H. pose proof (init_numeric _ _ _ _ _ H) as N.
  destruct N as (cd' & [= <-] & Hl & Ho & Hd & Ts & Hn).
  apply init_inv in H.
  destruct H as (_ & _ & cd'' & _ & _ & _ & [= <-] & _ & Ls & _).
  simpl in Ls. injection Ls as Ls.
  repeat split; auto.
  simpl in Ts. destruct (take cs (argsort fl)) as [cs'|] eqn:T; simpl in Ts;
    [|discriminate].
  injection Ts as <-. apply (take_inv EmptyString) in T. now destruct T as [-> _].
Qed.

Lemma init_entries fl cd cs ot r :
  init (Array1 (map VFloat fl)) (Array1 cd) (Array1 cs) ot = Ok r ->
  exists ro rs,
    onset r = map VFloat ro /\ description r = Array1 rs /\
    length ro = length (duration r) /\ length rs = length (duration r) /\
    entries ro (duration r) rs =
    map (fun i => nth i (entries fl cd cs) (nan, nan, EmptyString)) (argsort fl).
Proof.
  intros H. apply init_plain in H. destruct H as (H1 & H2 & Ho & Hd & Hs & _).
  eexists _, _. split; [exact Ho|]. split; [exact Hs|].
  rewrite Hd, !length_map. repeat split.
  now apply entries_take.
Qed.

Lemma init_entries_Permutation fl cd cs ot r :
  init (Array1 (map VFloat fl)) (Array1 cd) (Array1 cs) ot = Ok r ->
  exists ro rs,
    onset r = map VFloat ro /\ description r = Array1 rs /\
    Permutation (entries fl cd cs) (entries ro (duration r) rs).
Proof.
  intros H. pose proof (init_plain _ _ _ _ _ H) as (H1 & H2 & _).
  destruct (init_entries _ _ _ _ _ H) as (ro & rs & Ho & Hs & _ & _ & E).
  exists ro, rs. split; [exact Ho|]. split; [exact Hs|].
  rewrite E.
  rewrite <- (map_nth_seq (nan, nan, EmptyString) (entries fl cd cs)) at 1.
  apply Permutation_map. rewrite entries_length by assumption.
  rewrite <- H1. apply Permutation_sym, argsort_spec.
Qed.

(** A merge with no [orig_time] on the second set is one construction. *)
Lemma combine_relative_eq a b fa sa fb sb last_samps sfreq shift :
  is_plain a fa sa -> is_plain b fb sb -> orig_time b = None ->
  onset_shift last_samps sfreq = Ok shift ->
  combine (Some a, Some b) last_samps sfreq =
  (r <- init (Array1 (map VFloat (fa ++ map (fun x => (x + shift)%float) fb)))
             (Array1 (duration a ++ duration b)) (Array1 (sa ++ sb))
             (stored (orig_time a)) ;;
   Ok (Some r)).
Proof.
  intros (Oa & Da & La & Sa) (Ob & Db & Lb & Sb) Tb Hs.
  unfold _combine_annotations. simpl. rewrite Tb, Hs. simpl.
  rewrite Ob, mapM_value_add. simpl. rewrite Da, Db. simpl.
  now rewrite Oa, <- map_app.
Qed.

(** X1. Construction and merge lose and add nothing: the entries of the
    constructed set are those given, in another order; the entries of a
    merge with no [orig_time] on the second set are those of the first
    set and those of the second, moved by the shift. *)
Theorem entries_kept :
  (forall fl cd cs ot r,
      init (Array1 (map VFloat fl)) (Array1 cd) (Array1 cs) ot = Ok r ->
      exists ro rs,
        onset r = map VFloat ro /\ description r = Array1 rs /\
        Permutation (entries fl cd cs) (entries ro (duration r) rs)) /\
  (forall a b fa sa fb sb last_samps sfreq shift r,
      is_plain a fa sa -> is_plain b fb sb -> orig_time b = None ->
      onset_shift last_samps sfreq = Ok shift ->
      combine (Some a, Some b) last_samps sfreq = Ok (Some r) ->
      exists ro rs,
        onset r = map VFloat ro /\ description r = Array1 rs /\
        Permutation
          (entries fa (duration a) sa ++
           entries (map (fun x => (x + shift)%float) fb) (duration b) sb)
          (entries ro (duration r) rs)).
Proof.
  split; [exact init_entries_Permutation|].
  intros a b fa sa fb sb last_samps sfreq shift r Pa Pb Tb Hs H.
  rewrite (combine_relative_eq a b fa sa fb sb _ _ shift) in H by assumption.
  match type of H with bind ?m _ = _ => destruct m as [r'|] eqn:E end;
    simpl in H; [|discriminate].
  injection H as <-.
  destruct Pa as (_ & _ & La & Sa).
  rewrite <- entries_app by assumption.
  now apply init_entries_Permutation in E.
Qed.

(** ** Inputs that are sorted already *)

(** When the sort answers with the identity the arrays are stored as
    given. *)
Lemma init_identity fl cd s ot t :
  normalize ot = Ok t -> length fl = length cd -> len s = Ok (length cd) ->
  argsort fl = seq 0 (length fl) ->
  init (Array1 (map VFloat fl)) (Array1 cd) s ot =
  Ok (mkAnnotations (map VFloat fl) cd s t).
Proof.
  intros Hn Hl Hs Ha. unfold __init__. rewrite Hn. simpl.
  rewrite length_map, Hl, Nat.eqb_refl, Hs. simpl. rewrite Nat.eqb_refl. simpl.
  unfold ndarray_argsort. rewrite as_floats_map, Ha. simpl.
  rewrite <- (length_map VFloat fl) at 1. rewrite take_seq. simpl.
  rewrite Hl, take_seq. simpl. now rewrite take0_seq.
Qed.

Lemma increasing_sorted_cells fl :
  no_ties fl -> increasing (map (fun i => nth i fl nan) (argsort fl)).
Proof.
  intros T. apply StronglySorted_map.
  exact (argsort_strict fl (argsort fl) T (argsort_spec fl)).
Qed.

(** X2. Onsets given in increasing order, with no two equal, are stored
    as given: construction leaves the three sequences in place. *)
Theorem sorted_input_kept fl cd s ot t :
  increasing fl -> normalize ot = Ok t ->
  length fl = length cd -> len s = Ok (length cd) ->
  init (Array1 (map VFloat fl)) (Array1 cd) s ot =
  Ok (mkAnnotations (map VFloat fl) cd s t).
Proof.
  intros I Hn Hl Hs. apply init_identity; auto.
  apply argsort_increasing; [exact I|apply argsort_spec].
Qed.

(** X3. Construction is idempotent on onsets without ties: constructing
    again from the fields of a constructed set gives that set. *)
Theorem construction_idempotent fl d s ot r :
  no_ties fl ->
  init (Array1 (map VFloat fl)) d s ot = Ok r ->
  init (Array1 (onset r)) (Array1 (duration r)) (description r)
       (stored (orig_time r)) = Ok r.
Proof.
  intros T H. pose proof (init_equal_lengths _ _ _ _ _ H) as [L1 L2].
  apply init_numeric in H. destruct H as (cd & _ & _ & Ho & _ & _ & _).
  rewrite Ho in *. rewrite length_map in L1.
  rewrite (init_identity _ (duration r) (description r) _ (orig_time r));
    auto using normalize_stored.
  - rewrite <- Ho. now destruct r.
  - apply argsort_increasing; [|apply argsort_spec].
    now apply increasing_sorted_cells.
Qed.

(** X4. When the onsets of the first set followed by the shifted onsets
    of the second are increasing, as for recordings appended in time, the
    merge is the plain concatenation of the fields. *)
Theorem combine_in_order a b fa sa fb sb last_samps sfreq shift :
  is_plain a fa sa -> is_plain b fb sb -> orig_time b = None ->
  onset_shift last_samps sfreq = Ok shift ->
  increasing (fa ++ map (fun x => (x + shift)%float) fb) ->
  combine (Some a, Some b) last_samps sfreq =
  Ok (Some (mkAnnotations
              (map VFloat (fa ++ map (fun x => (x + shift)%float) fb))
              (duration a ++ duration b) (Array1 (sa ++ sb)) (orig_time a))).
Proof.
  intros Pa Pb Tb Hs I.
  rewrite (combine_relative_eq a b fa sa fb sb _ _ shift) by assumption.
  destruct Pa as (_ & _ & La & Sa). destruct Pb as (_ & _ & Lb & Sb).
  rewrite (init_identity _ _ _ _ (orig_time a)); [reflexivity| | | |].
  - apply normalize_stored.
  - rewrite !length_app, length_map. lia.
  - simpl. rewrite !length_app. congruence.
  - apply argsort_increasing; [exact I|apply argsort_spec].
Qed.

(** X5. Without ties among the onsets, the constructed set does not depend
    on the order in which the entries are given. *)
Theorem construction_order_free fl cd cs fl' cd' cs' ot r r' :
  no_ties fl ->
  Permutation (entries fl cd cs) (entries fl' cd' cs') ->
  init (Array1 (map VFloat fl)) (Array1 cd) (Array1 cs) ot = Ok r ->
  init (Array1 (map VFloat fl')) (Array1 cd') (Array1 cs') ot = Ok r' ->
  r = r'.
Proof.
  clear float_repr float_parse. intros T P H H'.
  pose proof (init_plain _ _ _ _ _ H) as (L1 & L2 & _ & _ & _ & Hn).
  pose proof (init_plain _ _ _ _ _ H') as (L1' & L2' & _ & _ & _ & Hn').
  assert (T' : no_ties fl').
  { apply (no_ties_Permutation fl); [|exact T].
    rewrite <- (entries_onsets fl cd cs), <- (entries_onsets fl' cd' cs')
      by assumption.
    now apply Permutation_map. }
  pose proof (init_entries_Permutation _ _ _ _ _ H) as (ro0 & rs0 & Ho0 & Hs0 & P0).
  pose proof (init_entries_Permutation _ _ _ _ _ H') as (ro0' & rs0' & Ho0' & Hs0' & P0').
  destruct (init_entries _ _ _ _ _ H) as (ro & rs & Ho & Hs & Lo & Ls & E).
  destruct (init_entries _ _ _ _ _ H') as (ro' & rs' & Ho' & Hs' & Lo' & Ls' & E').
  assert (ro0 = ro) by (rewrite Ho in Ho0; clear - Ho0;
    revert ro0 Ho0; induction ro as [|x ro IH]; intros [|y ro0] H;
    simpl in H; try discriminate; [reflexivity|];
    injection H as -> H; f_equal; now apply IH).
  assert (rs0 = rs) by congruence.
  assert (ro0' = ro') by (rewrite Ho' in Ho0'; clear - Ho0';
    revert ro0' Ho0'; induction ro' as [|x ro' IH]; intros [|y ro0'] H;
    simpl in H; try discriminate; [reflexivity|];
    injection H as -> H; f_equal; now apply IH).
  assert (rs0' = rs') by congruence.
  subst ro0 rs0 ro0' rs0'.
  pose (Rk := fun e e' : float * float * string =>
                np_lt (fst (fst e)) (fst (fst e')) = true).
  assert (S : forall gl gd gs, length gl = length gd -> length gs = length gd ->
                no_ties gl ->
                StronglySorted Rk
                  (map (fun i => nth i (entries gl gd gs) (nan, nan, EmptyString))
                       (argsort gl))).
  { intros gl gd gs G1 G2 GT. apply StronglySorted_map.
    apply (StronglySorted_impl
             (fun i j => np_lt (nth i gl nan) (nth j gl nan) = true)).
    - intros i j. unfold Rk.
      rewrite <- (entries_onsets gl gd gs G1 G2) at 1 2.
      now rewrite !(map_nth (fun e => fst (fst e)) _ (nan, nan, EmptyString)).
    - apply argsort_strict; [exact GT|apply argsort_spec]. }
  assert (Q : entries ro (duration r) rs = entries ro' (duration r') rs').
  { rewrite E, E'.
    apply (strict_sorted_unique Rk).
    - unfold Rk. intros x y X Y. apply np_lt_asym in X. congruence.
    - now apply S.
    - now apply S.
    - rewrite <- E, <- E'.
      eapply perm_trans; [apply Permutation_sym, P0|].
      eapply perm_trans; [exact P|exact P0']. }
  assert (Qo : ro = ro')
    by (rewrite <- (entries_onsets ro (duration r) rs),
          <- (entries_onsets ro' (duration r') rs') by assumption;
        now rewrite Q).
  assert (Qd : duration r = duration r')
    by (rewrite <- (entries_durations ro (duration r) rs),
          <- (entries_durations ro' (duration r') rs') by assumption;
        now rewrite Q).
  assert (Qs : rs = rs')
    by (rewrite <- (entries_labels ro (duration r) rs),
          <- (entries_labels ro' (duration r') rs') by assumption;
        now rewrite Q).
  destruct r, r'. simpl in *. subst. f_equal. congruence.
Qed.

(** ** Which error, and when *)

Lemma init_all_equal_not_ValueError co cd s ot t msg :
  normalize ot = Ok t -> ndim s <> 0 ->
  length co = length cd -> len s = Ok (length cd) ->
  init (Array1 co) (Array1 cd) s ot <> Raise (ValueError msg).
Proof.
  intros Hn Hs Hl Ls H.
  apply init_ValueError_rejected in H; [|exact Hs|eauto].
  destruct H as [H|[H|H]]; simpl in H; try lia.
  apply H. exists (length cd). repeat split; congruence.
Qed.

(** X6. The three messages of construction, in the order of the checks:
    the onset is looked at first, then the duration, then the lengths. *)
Theorem construction_error_messages o d s ot t :
  normalize ot = Ok t -> ndim s <> 0 ->
  (init o d s ot = Raise (ValueError "Onset must be a one dimensional array.")
   <-> ndim o <> 1) /\
  (init o d s ot = Raise (ValueError "Duration must be a one dimensional array.")
   <-> ndim o = 1 /\ ndim d <> 1) /\
  (init o d s ot =
   Raise (ValueError "Onset, duration and description must be equal in sizes.")
   <-> ndim o = 1 /\ ndim d = 1 /\
       ~ (exists n, len o = Ok n /\ len d = Ok n /\ len s = Ok n)).
Proof.
  intros Hn Hs.
  destruct o as [x|co|k ks rows].
  1, 3: match goal with
        | |- context [__init__ _ _ _ ?o' ?d' ?s' ?ot'] =>
            assert (E : init o' d' s' ot' =
                        Raise (ValueError "Onset must be a one dimensional array."))
              by (unfold __init__; rewrite Hn; reflexivity)
        end;
    rewrite E; simpl; repeat split; try discriminate; try lia;
    intros; try lia; destruct H; lia.
  destruct d as [x|cd|k ks rows].
  1, 3: match goal with
        | |- context [__init__ _ _ _ ?o' ?d' ?s' ?ot'] =>
            assert (E : init o' d' s' ot' =
                        Raise (ValueError "Duration must be a one dimensional array."))
              by (unfold __init__; rewrite Hn; reflexivity)
        end;
    rewrite E; simpl; repeat split; try discriminate; try lia;
    intros; try lia; destruct H as (? & ? & ?); lia.
  destruct (Nat.eq_dec (length co) (length cd)) as [Hl|Hl];
    [destruct (len s) as [n|e] eqn:Ls;
     [destruct (Nat.eq_dec (length cd) n) as [Hl2|Hl2]|]|].
  - subst n.
    pose proof (fun msg => init_all_equal_not_ValueError co cd s ot t msg
                             Hn Hs Hl Ls) as N.
    split; [|split]; (split; [intros H; now apply N in H|]); simpl.
    + lia.
    + lia.
    + intros (_ & _ & H). exfalso. apply H. exists (length cd).
      repeat split; congruence.
  - assert (E : init (Array1 co) (Array1 cd) s ot =
                Raise (ValueError
                         "Onset, duration and description must be equal in sizes.")).
    { unfold __init__. rewrite Hn. simpl.
      apply Nat.eqb_eq in Hl. rewrite Hl, Ls. simpl.
      apply Nat.eqb_neq in Hl2. now rewrite Hl2. }
    rewrite E. simpl. repeat split; try discriminate; try lia.
    intros (m & [= <-] & [= _] & [= ->]). congruence.
  - destruct s; simpl in *; try discriminate; lia.
  - assert (E : init (Array1 co) (Array1 cd) s ot =
                Raise (ValueError
                         "Onset, duration and description must be equal in sizes.")).
    { unfold __init__. rewrite Hn. simpl.
      apply Nat.eqb_neq in Hl. now rewrite Hl. }
    rewrite E. simpl. repeat split; try discriminate; try lia.
    intros (m & [= <-] & [= E'] & _). congruence.
Qed.

(** X7. An [orig_time] given as a sequence: with fewer than two items
    construction raises IndexError whatever the arrays are, and items
    after the second are never read. *)
Theorem orig_time_sequence_items o d s :
  (forall items, length items < 2 ->
     __init__ datetime mktime argsort o d s (OTSequence items) =
     Raise IndexError) /\
  (forall sec usec rest,
     __init__ datetime mktime argsort o d s (OTSequence (sec :: usec :: rest)) =
     __init__ datetime mktime argsort o d s (OTSequence [sec; usec])).
Proof.
  split.
  - intros [|x [|y items]] H; simpl in H; try lia; reflexivity.
  - reflexivity.
Qed.

(** X8. A merge returns a set only for two sets that are both there, and
    the set it returns has the [orig_time] of the first; that of the
    second is dropped. *)
Theorem combine_result_origin annotations last_samps sfreq r :
  _combine_annotations datetime mktime argsort annotations last_samps sfreq =
  Ok (Some r) ->
  exists a b, annotations = (Some a, Some b) /\ orig_time r = orig_time a.
Proof.
  intros H. apply combine_inv in H.
  destruct H as (a & b & o & d & s & -> & H).
  exists a, b. split; [reflexivity|].
  apply init_inv in H.
  destruct H as (t & _ & _ & _ & Hn & _ & _ & _ & _ & _ & _ & _ & _ & <-).
  rewrite normalize_stored in Hn. congruence.
Qed.

(** X9. Onsets that are NaN are stored behind all the others. *)
Theorem nan_onsets_last fl d s ot r :
  __init__ datetime mktime argsort (Array1 (map VFloat fl)) d s ot = Ok r ->
  exists ro,
    onset r = map VFloat ro /\
    forall i j, i < j < length ro ->
      is_nan (nth i ro nan) = true -> is_nan (nth j ro nan) = true.
Proof.
  intros H. apply init_numeric in H. destruct H as (cd & _ & _ & Ho & _).
  eexists. split; [exact Ho|]. intros i j Hij Ni.
  pose proof (proj2 (argsort_spec fl) i j Hij) as A.
  unfold np_lt in A. apply orb_false_elim in A. destruct A as [_ A].
  rewrite Ni in A. simpl in A. now apply negb_false_iff in A.
Qed.

(** ** The text of a set *)

Lemma serialize_document fl r :
  onset r = map VFloat fl ->
  serialize r = Ok (dumps float_repr (document fl r)).
Proof.
  intros Ho. unfold _serialize. now rewrite Ho, mapM_cell_to_json.
Qed.

Lemma faithful_document fl r :
  (forall x, In x fl \/ In x (duration r) \/ orig_time r = Some x ->
             readable x) ->
  faithful float_repr float_parse (document fl r).
Proof.
  intros R. simpl. repeat split.
  - apply faithful_numbers. intros x Hx. apply R. now left.
  - apply faithful_numbers. intros x Hx. apply R. now right; left.
  - apply faithful_tolist.
  - destruct (orig_time r) as [t|] eqn:Et; simpl; [|exact I].
    apply R. now right; right.
Qed.

(** X10. Serialization loses nothing: two sets of float onsets with one
    text have the same onsets, durations, [orig_time] and nested labels,
    and are one set when their descriptions are one-dimensional. *)
Theorem serialize_injective r1 r2 fl1 fl2 text :
  onset r1 = map VFloat fl1 -> onset r2 = map VFloat fl2 ->
  (forall x, In x (fl1 ++ duration r1 ++ fl2 ++ duration r2) \/
             orig_time r1 = Some x \/ orig_time r2 = Some x -> readable x) ->
  serialize r1 = Ok text -> serialize r2 = Ok text ->
  onset r1 = onset r2 /\ duration r1 = duration r2 /\
  orig_time r1 = orig_time r2 /\
  tolist (description r1) = tolist (description r2) /\
  (forall l1 l2, description r1 = Array1 l1 -> description r2 = Array1 l2 ->
                 r1 = r2).
Proof.
  intros O1 O2 R S1 S2.
  rewrite (serialize_document fl1 r1 O1) in S1.
  rewrite (serialize_document fl2 r2 O2) in S2.
  assert (E1 : dumps float_repr (document fl1 r1) = text) by congruence.
  assert (E2 : dumps float_repr (document fl2 r2) = text) by congruence.
  clear S1 S2.
  assert (L1 : loads float_parse text = Some (document fl1 r1)).
  { rewrite <- E1. apply loads_dumps, faithful_document.
    intros x [H|[H|H]]; apply R; rewrite ?in_app_iff; tauto. }
  assert (L2 : loads float_parse text = Some (document fl2 r2)).
  { rewrite <- E2. apply loads_dumps, faithful_document.
    intros x [H|[H|H]]; apply R; rewrite ?in_app_iff; tauto. }
  rewrite L1 in L2. injection L2 as Eo Ed Es Et.
  apply map_JNumber_inj in Eo, Ed. subst fl2.
  assert (T : orig_time r1 = orig_time r2)
    by (destruct (orig_time r1), (orig_time r2); congruence).
  repeat split; try congruence.
  intros l1 l2 D1 D2. rewrite D1, D2 in Es. simpl in Es.
  injection Es as Es. apply map_JString_inj in Es.
  destruct r1, r2. simpl in *. congruence.
Qed.

(** ** The shift *)

(** X11. The shift of a merge: the last entry of [last_samps] is never
    read; with at most one entry and a positive [sfreq] the shift is 0.0,
    and an onset with 0.0 added compares equal to itself. *)
Theorem shift_of_blocks :
  (forall annotations last_samps n m sfreq,
      combine annotations (last_samps ++ [n]) sfreq =
      combine annotations (last_samps ++ [m]) sfreq) /\
  (forall last_samps sfreq,
      (0 <? sfreq)%float = true -> length last_samps <= 1 ->
      onset_shift last_samps sfreq = Ok 0%float) /\
  (forall x, is_nan x = false ->
      exists y, value_add 0 (VFloat x) = Ok (VFloat y) /\
                (y =? x)%float = true).
Proof.
  split; [|split].
  - intros annotations last_samps n m sfreq.
    unfold _combine_annotations, onset_shift, but_last.
    now rewrite !removelast_last.
  - intros last_samps sfreq P L.
    destruct (positive_float sfreq P) as [Z D].
    assert (E : sum (but_last last_samps) = 0%Z)
      by (destruct last_samps as [|n [|m l]]; simpl in L; try lia; reflexivity).
    unfold onset_shift, truediv. rewrite E.
    change (to_float (PyInt 0)) with (@Ok float 0%float). simpl.
    now rewrite Z, D.
  - intros x N. eexists. split; [reflexivity|]. now apply add_zero_eqb.
Qed.

End Properties.

(** ** Entries of equal onset *)

Lemma init_in_lockstep_at (datetime : Type)
    (mktime : datetime -> result float) (argsort : list float -> list nat)
    fl cd s ot r :
  Permutation (argsort fl) (seq 0 (length fl)) ->
  __init__ datetime mktime argsort (Array1 (map VFloat fl)) (Array1 cd) s ot =
  Ok r ->
  in_lockstep (argsort fl) fl cd s r.
Proof.
  intros P H. apply init_inv in H.
  destruct H as (t & co & cd' & order & _ & [= <-] & [= <-] & _ & _ & Ho & To
                 & Td & Ts & _).
  unfold ndarray_argsort in Ho. rewrite as_floats_map in Ho.
  injection Ho as <-. split; [exact P|]. now repeat split.
Qed.

(** C3, as the code has it.  Construction applies one permutation to the
    three sequences, the one [argsort] returns, which sorts the onsets;
    entries of equal onset keep their order when that [argsort] is stable
    on them.  The code asks for no stable sort.  The sort it runs, numpy's
    quicksort, keeps entries of equal onset in their order when at most 16
    entries are given, an array that short being sorted by insertion. *)
Theorem construction_sorts_in_lockstep :
  (forall (datetime : Type) (mktime : datetime -> result float)
          (argsort : list float -> list nat),
      (forall a, is_argsort a (argsort a)) ->
      forall fl cd s ot r,
        __init__ datetime mktime argsort
          (Array1 (map VFloat fl)) (Array1 cd) s ot = Ok r ->
        sorts_in_lockstep fl cd s r /\
        (is_stable fl (argsort fl) -> keeps_order_of_ties fl cd s r)) /\
  (forall (datetime : Type) (mktime : datetime -> result float)
          fl cd s ot r,
      length fl <= 16 ->
      __init__ datetime mktime quicksort_argsort
        (Array1 (map VFloat fl)) (Array1 cd) s ot = Ok r ->
      sorts_in_lockstep fl cd s r /\ keeps_order_of_ties fl cd s r).
Proof.
  split.
  - intros datetime mktime argsort Spec fl cd s ot r H.
    apply init_in_lockstep_at in H; [|apply Spec]. split.
    + exists (argsort fl). split; [exact H|apply Spec].
    + intros St. exists (argsort fl). now split.
  - intros datetime mktime fl cd s ot r L H.
    assert (L' : length fl <= 17) by lia.
    destruct (quicksort_short_stable fl L') as [[P A] St].
    apply init_in_lockstep_at in H; [|exact P]. split.
    + exists (quicksort_argsort fl). now split.
    + exists (quicksort_argsort fl). now split.
Qed.

(** C3 as stated fails.  Eighteen entries of onset 1.0, labelled a to r:
    numpy's quicksort partitions an array of more than 17 cells, and a
    partition exchanges cells that are equal to the pivot.  Here the
    pivot, the cell at place 8, goes to place 16; [pi] and [pj] stop at
    every cell, since none is smaller or larger than the pivot, and the
    places 1 to 7 are exchanged with the places 15 to 9; the pivot
    returns to place 8, and the two parts, of 8 and 9 cells, are left as
    they are by the insertion.  The answer sorts the onsets, and the
    entries b to p come out in reverse order, in duration and
    description alike. *)
Lemma ties_reordered :
  aquicksort_ tied_onsets (seq 0 18) 18 =
  Some [0; 15; 14; 13; 12; 11; 10; 9; 8; 7; 6; 5; 4; 3; 2; 1; 16; 17] /\
  is_argsort tied_onsets (quicksort_argsort tied_onsets) /\
  exists r,
    __init__ no_datetime no_mktime quicksort_argsort
      (Array1 (map VFloat tied_onsets)) (Array1 tied_durations)
      (Array1 tied_labels) OTNone = Ok r /\
    description r =
    Array1 ["a"; "p"; "o"; "n"; "m"; "l"; "k"; "j"; "i"; "h"; "g"; "f"; "e";
            "d"; "c"; "b"; "q"; "r"] /\
    duration r =
    [1; 16; 15; 14; 13; 12; 11; 10; 9; 8; 7; 6; 5; 4; 3; 2; 17; 18]%float /\
    ~ keeps_order_of_ties tied_onsets tied_durations (Array1 tied_labels) r.
Proof.
  assert (Q : quicksort_argsort tied_onsets =
              [0; 15; 14; 13; 12; 11; 10; 9; 8; 7; 6; 5; 4; 3; 2; 1; 16; 17])
    by (vm_compute; reflexivity).
  split; [vm_compute; reflexivity|]. split.
  - rewrite Q. split.
    + apply NoDup_Permutation_bis.
      * repeat (constructor; [simpl; lia|]). constructor.
      * simpl. lia.
      * intros k H. simpl in H. apply in_seq. simpl. lia.
    + change (ascending (repeat 1%float 18)). apply ascending_repeat.
  - eexists. split; [vm_compute; reflexivity|].
    split; [reflexivity|]. split; [reflexivity|].
    intros (order & (_ & _ & _ & Ts) & St). simpl in Ts.
    destruct (take tied_labels order) as [c|] eqn:T; simpl in Ts;
      [|discriminate].
    injection Ts as ->.
    assert (N : NoDup tied_labels).
    { unfold tied_labels.
      repeat (constructor; [simpl; intuition discriminate|]). constructor. }
    assert (E : order =
                [0; 15; 14; 13; 12; 11; 10; 9; 8; 7; 6; 5; 4; 3; 2; 1; 16; 17])
      by (apply (take_inj _ _ _ _ N T); reflexivity).
    subst order. specialize (St 1 2).
    assert (L : 15 < 14) by (apply St; [simpl; lia|reflexivity]). lia.
Qed.

(** ** Instances *)

(** Two entries of onset 1.0 stay as given, under the stable sort and
    under numpy's quicksort. *)
Lemma stable_construction_keeps_ties :
  (exists r,
     __init__ no_datetime no_mktime stable_argsort
       (Array1 (map VFloat [1; 1]%float)) (Array1 [0.1; 0.2]%float)
       (Array1 ["a"; "b"]) OTNone = Ok r /\
     description r = Array1 ["a"; "b"] /\
     sorts_in_lockstep [1; 1]%float [0.1; 0.2]%float (Array1 ["a"; "b"]) r /\
     keeps_order_of_ties [1; 1]%float [0.1; 0.2]%float (Array1 ["a"; "b"]) r) /\
  exists r,
    __init__ no_datetime no_mktime quicksort_argsort
      (Array1 (map VFloat [1; 1]%float)) (Array1 [0.1; 0.2]%float)
      (Array1 ["a"; "b"]) OTNone = Ok r /\
    description r = Array1 ["a"; "b"] /\
    keeps_order_of_ties [1; 1]%float [0.1; 0.2]%float (Array1 ["a"; "b"]) r.
Proof.
  split.
  - eexists. split; [vm_compute; reflexivity|]. split; [reflexivity|].
    destruct (proj1 construction_sorts_in_lockstep no_datetime no_mktime
                stable_argsort stable_argsort_spec
                [1; 1]%float [0.1; 0.2]%float (Array1 ["a"; "b"]) OTNone _
                eq_refl)
      as [H1 H2].
    split; [exact H1|]. apply H2, stable_argsort_stable.
  - eexists. split; [vm_compute; reflexivity|]. split; [reflexivity|].
    apply (proj2 construction_sorts_in_lockstep no_datetime no_mktime
             [1; 1]%float [0.1; 0.2]%float (Array1 ["a"; "b"]) OTNone);
      [simpl; lia|reflexivity].
Defined.

(** A merge after three blocks, under the stable sort: the first two
    counts make the shift, (1000 + 500) / 500.0 = 3.0; the third is the
    block being appended. *)
Lemma combine_relative_sample :
  exists r,
    _combine_annotations no_datetime no_mktime stable_argsort
      (Some sample_a, Some sample_b) [1000; 500; 700]%Z 500%float =
    Ok (Some r) /\
    onset r = [VFloat 1.0; VFloat (0.2 + 3.0)] /\
    sorts_in_lockstep [1.0; 0.2 + 3.0]%float [0.5; 0.1]%float
      (Array1 ["x"; "y"]) r /\
    orig_time r = None.
Proof.
  destruct (proj1 (combine_relative no_datetime no_mktime stable_argsort
                     stable_argsort_spec)
              sample_a sample_b [1.0%float] ["x"] [0.2%float] ["y"]
              [1000; 500; 700]%Z 500%float)
    as (r & Hc & _ & Hs & Ht).
  - repeat split.
  - repeat split.
  - reflexivity.
  - reflexivity.
  - reflexivity.
  - exists r. split; [exact Hc|]. split; [|split; [exact Hs|exact Ht]].
    vm_compute in Hc. now injection Hc as <-.
Defined.



(** Two entries given latest first. *)
Lemma lengths_equal_sample :
  exists r,
    __init__ no_datetime no_mktime stable_argsort
      (Array1 [VFloat 2; VFloat 1]) (Array1 [0.5; 0.1]%float)
      (Array1 ["late"; "early"]) OTNone = Ok r /\
    equal_lengths r.
Proof.
  eexists. split; [vm_compute; reflexivity|].
  apply (proj1 (lengths_equal no_datetime no_mktime stable_argsort)
           (Array1 [VFloat 2; VFloat 1]) (Array1 [0.5; 0.1]%float)
           (Array1 ["late"; "early"]) OTNone).
  vm_compute. reflexivity.
Defined.

Lemma onsets_nondecreasing_sample :
  exists r,
    __init__ no_datetime no_mktime stable_argsort
      (Array1 [VFloat 2; VFloat 1]) (Array1 [0.5; 0.1]%float)
      (Array1 ["late"; "early"]) OTNone = Ok r /\
    onset r = [VFloat 1; VFloat 2] /\
    sorted_onsets r.
Proof.
  eexists. split; [vm_compute; reflexivity|]. split; [reflexivity|].
  apply (proj1 (onsets_nondecreasing no_datetime no_mktime stable_argsort
                  stable_argsort_spec)
           (Array1 [VFloat 2; VFloat 1]) (Array1 [0.5; 0.1]%float)
           (Array1 ["late"; "early"]) OTNone).
  vm_compute. reflexivity.
Defined.

(** The pair (1467000000, 500000) is stored as 1467000000.5. *)
Lemma orig_time_normalized_sample :
  exists r,
    __init__ no_datetime no_mktime stable_argsort
      (Array1 (map VFloat [1%float])) (Array1 [0.5%float]) (Array1 ["x"])
      (OTSequence [PyInt 1467000000; PyInt 500000]) = Ok r /\
    orig_time r = Some 1467000000.5%float.
Proof.
  destruct (proj2 (orig_time_normalized no_datetime no_mktime stable_argsort
                     stable_argsort_spec)
              [1%float] [0.5%float] ["x"] eq_refl eq_refl)
    as (_ & _ & H).
  apply (H (PyInt 1467000000) (PyInt 500000) [] 1467000000%float 500000%float);
    reflexivity.
Defined.

(** Two entries with a description of shape (2, 2). *)
Lemma description_ndim_unchecked_sample :
  exists r,
    __init__ no_datetime no_mktime stable_argsort
      (Array1 (map VFloat [2; 1]%float)) (Array1 [0.5; 0.1]%float)
      (ArrayN 2 [] [["a"; "b"]; ["c"; "d"]]) OTNone = Ok r /\
    ndim (description r) = 2 /\
    len (description r) = Ok 2.
Proof.
  apply (description_ndim_unchecked no_datetime no_mktime stable_argsort
           stable_argsort_spec [2; 1]%float [0.5; 0.1]%float 2 []
           [["a"; "b"]; ["c"; "d"]] OTNone None); reflexivity.
Defined.

(** The sample set read back from its text. *)
Lemma serialize_roundtrip_sample :
  exists r text,
    __init__ no_datetime no_mktime stable_argsort
      (Array1 (map VFloat [2.2; 1]%float)) (Array1 [0.1; 0.5]%float)
      (Array1 ["y"; "x"]) OTNone = Ok r /\
    _serialize sample_repr r = Ok text /\
    loads sample_float text =
    Some (JObject [("onset", JArray [JNumber 1; JNumber 2.2]);
                   ("duration", JArray [JNumber 0.5; JNumber 0.1]);
                   ("description", JArray [JString "x"; JString "y"]);
                   ("orig_time", JNull)]).
Proof.
  eexists. 
  destruct (serialize_roundtrip no_datetime no_mktime stable_argsort
              sample_repr sample_float stable_argsort_spec
              [2.2; 1]%float (Array1 [0.1; 0.5]%float) (Array1 ["y"; "x"])
              OTNone _ eq_refl)
    as (text & onsets & Ho & Hs & Hl & _).
  - simpl. intros x [[<-|[<-|[]]]|[[<-|[<-|[]]]|[=]]]; now split.
  - exists text. split; [reflexivity|]. split; [exact Hs|].
    simpl in Ho. destruct onsets as [|x [|y [|z onsets]]]; try discriminate.
    injection Ho as <- <-. exact Hl.
Defined.

(** ** More on what the sort leaves open *)

(** X12. Without ties among the onsets construction does not depend on
    the sort: any two sorts within the contract of [argsort] give the same
    result. *)
Theorem construction_sort_free (datetime : Type)
    (mktime : datetime -> result float)
    (argsort1 argsort2 : list float -> list nat) :
  (forall a, is_argsort a (argsort1 a)) ->
  (forall a, is_argsort a (argsort2 a)) ->
  forall fl d s ot,
    no_ties fl ->
    __init__ datetime mktime argsort1 (Array1 (map VFloat fl)) d s ot =
    __init__ datetime mktime argsort2 (Array1 (map VFloat fl)) d s ot.
Proof.
  intros H1 H2 fl d s ot T. unfold __init__, ndarray_argsort.
  rewrite as_floats_map.
  now rewrite (argsort_unique fl (argsort1 fl) (argsort2 fl) T (H1 fl) (H2 fl)).
Qed.

(** Two entries given latest first. *)
Lemma entries_kept_sample :
  exists r,
    __init__ no_datetime no_mktime stable_argsort
      (Array1 (map VFloat [2.2; 1]%float)) (Array1 [0.1; 0.5]%float)
      (Array1 ["y"; "x"]) OTNone = Ok r /\
    exists ro rs,
      onset r = map VFloat ro /\ description r = Array1 rs /\
      Permutation (entries [2.2; 1]%float [0.1; 0.5]%float ["y"; "x"])
                  (entries ro (duration r) rs).
Proof.
  eexists. split; [vm_compute; reflexivity|].
  apply (proj1 (entries_kept no_datetime no_mktime stable_argsort
                  stable_argsort_spec)
           [2.2; 1]%float [0.1; 0.5]%float ["y"; "x"] OTNone).
  vm_compute. reflexivity.
Defined.

Lemma increasing_sample : increasing [1; 2.2]%float.
Proof. repeat constructor. Qed.

Lemma no_ties_sample : no_ties [2.2; 1]%float.
Proof.
  constructor; [constructor; [now right|constructor]|].
  constructor; constructor.
Qed.

(** Two entries given in order. *)
Lemma sorted_input_kept_sample :
  __init__ no_datetime no_mktime stable_argsort
    (Array1 (map VFloat [1; 2.2]%float)) (Array1 [0.5; 0.1]%float)
    (Array1 ["x"; "y"]) OTNone =
  Ok (mkAnnotations (map VFloat [1; 2.2]%float) [0.5; 0.1]%float
                    (Array1 ["x"; "y"]) None).
Proof.
  apply (sorted_input_kept no_datetime no_mktime stable_argsort
           stable_argsort_spec);
    [exact increasing_sample|reflexivity|reflexivity|reflexivity].
Defined.

Lemma construction_idempotent_sample :
  exists r,
    __init__ no_datetime no_mktime stable_argsort
      (Array1 (map VFloat [2.2; 1]%float)) (Array1 [0.1; 0.5]%float)
      (Array1 ["y"; "x"]) OTNone = Ok r /\
    __init__ no_datetime no_mktime stable_argsort
      (Array1 (onset r)) (Array1 (duration r)) (description r)
      (stored_orig_time no_datetime (orig_time r)) = Ok r.
Proof.
  eexists. split; [vm_compute; reflexivity|].
  apply (construction_idempotent no_datetime no_mktime stable_argsort
           stable_argsort_spec [2.2; 1]%float (Array1 [0.1; 0.5]%float)
           (Array1 ["y"; "x"]) OTNone);
    [exact no_ties_sample|vm_compute; reflexivity].
Defined.

(** The sample merge: 1.0, then 0.2 moved to 2.2. *)
Lemma combine_in_order_sample :
  _combine_annotations no_datetime no_mktime stable_argsort
    (Some sample_a, Some sample_b) [1000; 500]%Z 500%float =
  Ok (Some (mkAnnotations
              (map VFloat ([1.0] ++ map (fun x => (x + 2)%float) [0.2]))%float
              (duration sample_a ++ duration sample_b)
              (Array1 (["x"] ++ ["y"])) (orig_time sample_a))).
Proof.
  apply (combine_in_order no_datetime no_mktime stable_argsort
           stable_argsort_spec sample_a sample_b);
    [repeat split|repeat split|reflexivity|reflexivity|exact increasing_sample].
Defined.

(** The same two entries given in the two orders. *)
Lemma construction_order_free_sample :
  exists r r',
    __init__ no_datetime no_mktime stable_argsort
      (Array1 (map VFloat [2.2; 1]%float)) (Array1 [0.1; 0.5]%float)
      (Array1 ["y"; "x"]) OTNone = Ok r /\
    __init__ no_datetime no_mktime stable_argsort
      (Array1 (map VFloat [1; 2.2]%float)) (Array1 [0.5; 0.1]%float)
      (Array1 ["x"; "y"]) OTNone = Ok r' /\
    r = r'.
Proof.
  eexists. eexists. split; [vm_compute; reflexivity|].
  split; [vm_compute; reflexivity|].
  apply (construction_order_free no_datetime no_mktime stable_argsort
           stable_argsort_spec
           [2.2; 1]%float [0.1; 0.5]%float ["y"; "x"]
           [1; 2.2]%float [0.5; 0.1]%float ["x"; "y"] OTNone);
    [exact no_ties_sample|apply perm_swap
    |vm_compute; reflexivity|vm_compute; reflexivity].
Defined.

(** An onset of shape (2, 3) with a duration of shape (2, 3): the message
    is that of the onset. *)
Lemma construction_error_messages_sample :
  __init__ no_datetime no_mktime stable_argsort
    (ArrayN 3 [] [[VFloat 1; VFloat 2; VFloat 3]; [VFloat 4; VFloat 5; VFloat 6]])
    (ArrayN 3 [] [[1; 2; 3]; [4; 5; 6]]%float) (Array1 ["x"; "y"]) OTNone =
  Raise (ValueError "Onset must be a one dimensional array.").
Proof.
  apply (construction_error_messages no_datetime no_mktime stable_argsort
           _ _ _ OTNone None); [reflexivity|simpl; lia|simpl; lia].
Defined.

(** A sequence of one number as [orig_time], on arrays that would be
    refused. *)
Lemma orig_time_sequence_items_sample :
  __init__ no_datetime no_mktime stable_argsort
    (Array0 (VFloat 1)) (Array1 []) (Array1 ["x"])
    (OTSequence [PyInt 1467000000]) = Raise IndexError.
Proof.
  apply (proj1 (orig_time_sequence_items no_datetime no_mktime stable_argsort
                  (Array0 (VFloat 1)) (Array1 []) (Array1 ["x"]))).
  simpl. lia.
Defined.

Lemma combine_result_origin_sample :
  exists a b,
    (Some sample_a, Some sample_b) = (Some a, Some b) /\
    orig_time
      (mkAnnotations [VFloat 1.0; VFloat 2.2] [0.5; 0.1]%float
                     (Array1 ["x"; "y"]) None) = orig_time a.
Proof.
  apply (combine_result_origin no_datetime no_mktime stable_argsort
           (Some sample_a, Some sample_b) [1000; 500]%Z 500%float).
  vm_compute. reflexivity.
Defined.

(** A NaN given first is stored last. *)
Lemma nan_onsets_last_sample :
  exists r,
    __init__ no_datetime no_mktime stable_argsort
      (Array1 (map VFloat [nan; 1]%float)) (Array1 [0.1; 0.5]%float)
      (Array1 ["y"; "x"]) OTNone = Ok r /\
    onset r = [VFloat 1; VFloat nan] /\
    exists ro,
      onset r = map VFloat ro /\
      forall i j, i < j < length ro ->
        is_nan (nth i ro nan) = true -> is_nan (nth j ro nan) = true.
Proof.
  eexists. split; [vm_compute; reflexivity|]. split; [reflexivity|].
  apply (nan_onsets_last no_datetime no_mktime stable_argsort
           stable_argsort_spec [nan; 1]%float (Array1 [0.1; 0.5]%float)
           (Array1 ["y"; "x"]) OTNone).
  vm_compute. reflexivity.
Defined.

(** The set of the sample merge and its text. *)
Lemma serialize_injective_sample :
  let r := mkAnnotations [VFloat 1; VFloat 2.2] [0.5; 0.1]%float
                         (Array1 ["x"; "y"]) None in
  exists text,
    _serialize sample_repr r = Ok text /\
    onset r = onset r /\ duration r = duration r /\
    orig_time r = orig_time r /\
    tolist (description r) = tolist (description r) /\
    (forall l1 l2, description r = Array1 l1 -> description r = Array1 l2 ->
                   r = r).
Proof.
  intros r. eexists. split; [vm_compute; reflexivity|].
  eapply (serialize_injective sample_repr sample_float r r [1; 2.2]%float
            [1; 2.2]%float);
    [reflexivity|reflexivity| |vm_compute; reflexivity|vm_compute; reflexivity].
  simpl.
  intros x [[<-|[<-|[<-|[<-|[<-|[<-|[<-|[<-|[]]]]]]]]]|[[=]|[=]]]; now split.
Defined.

(** One block before the merge, at 500 samples a second. *)
Lemma shift_of_blocks_sample :
  onset_shift [1000]%Z 500%float = Ok 0%float /\
  _combine_annotations no_datetime no_mktime stable_argsort
    (Some sample_a, Some sample_b) ([1000] ++ [500])%Z 500%float =
  _combine_annotations no_datetime no_mktime stable_argsort
    (Some sample_a, Some sample_b) ([1000] ++ [7])%Z 500%float.
Proof.
  destruct (shift_of_blocks no_datetime no_mktime stable_argsort)
    as (H1 & H2 & _).
  split; [apply H2; [reflexivity|simpl; lia]|apply H1].
Defined.

(** The two sorts of this file on onsets without ties. *)
Lemma construction_sort_free_sample :
  __init__ no_datetime no_mktime stable_argsort
    (Array1 (map VFloat [2.2; 1]%float)) (Array1 [0.1; 0.5]%float)
    (Array1 ["y"; "x"]) OTNone =
  __init__ no_datetime no_mktime reversing_argsort
    (Array1 (map VFloat [2.2; 1]%float)) (Array1 [0.1; 0.5]%float)
    (Array1 ["y"; "x"]) OTNone.
Proof.
  apply (construction_sort_free no_datetime no_mktime stable_argsort
           reversing_argsort stable_argsort_spec reversing_argsort_spec).
  exact no_ties_sample.
Defined.
